(** * visx-sankey: the [Sankey] component

    A shallow embedding of [packages/visx-sankey/src/Sankey.tsx].  The
    component configures a d3-sankey layout engine from its optional props,
    applies it once to the input graph, and either hands the computed graph to
    the caller's render function or emits the default shapes: one [<path>] per
    link and one [<rect>] per node whose four bounds are defined.

    The layout engine (d3-sankey) and the link path generator (d3-shape) are
    libraries outside this package; they enter the development as interfaces
    ([SankeyLayout], [SankeyLinkPath]) and every result holds for all of their
    implementations. *)

From Stdlib Require Import ZArith List SpecFloat.
From stdpp Require Import gmap strings list fin_maps.

Local Open Scope string_scope.
Local Open Scope list_scope.
Set Warnings "-register-all".

(** ** JavaScript numbers

    A JS number is an IEEE 754 binary64 value. *)

Definition prec : Z := 53.
Definition emax : Z := 1024.

Definition number : Type := spec_float.

Definition zero : number := S754_zero false.
Definition one : number := S754_finite false 4503599627370496 (-52).
Definition half : number := S754_finite false 4503599627370496 (-53).

(** [a - b] on numbers. *)
Definition number_sub (a b : number) : number := SFsub prec emax a b.

(** [a <= b] on numbers; false as soon as one side is NaN. *)
Definition number_le (a b : number) : bool := SFleb a b.

Definition isNaN (a : number) : bool :=
  match a with S754_nan => true | _ => false end.

(** [Math.max(a, b)]: NaN if either argument is NaN, otherwise the larger
    one, where [+0] counts as larger than [-0]. *)
Definition Math_max (a b : number) : number :=
  match SFcompare a b with
  | None => S754_nan
  | Some Lt => b
  | Some Gt => a
  | Some Eq => match a with S754_zero true => b | _ => a end
  end.

(** ** Truthiness

    [if (v)] tests [ToBoolean(v)].  [undefined] is falsy; a number is falsy
    when it is [+0], [-0] or NaN; functions and arrays are always truthy. *)

Class ToBoolean (A : Type) := truthy : A -> bool.

#[export] Instance number_ToBoolean : ToBoolean number :=
  fun n => match n with
           | S754_zero _ | S754_nan => false
           | S754_infinity _ | S754_finite _ _ _ => true
           end.

#[export] Instance function_ToBoolean {A B : Type} : ToBoolean (A -> B) :=
  fun _ => true.

#[export] Instance array_ToBoolean {A B : Type} : ToBoolean (A * B) :=
  fun _ => true.

(** [if (o) set(o)] on an optional prop [o]: [None] is [undefined]. *)
Definition when {A S : Type} `{ToBoolean A}
    (o : option A) (set : A -> S -> S) (s : S) : S :=
  match o with
  | Some v => if truthy v then set v s else s
  | None => s
  end.

(** [a ?? b] where [a : T | undefined]. *)
Definition nullish {A : Type} (a : option A) (b : A) : A :=
  match a with Some v => v | None => b end.

(** ** SVG attribute values and props objects

    An attribute of the style-prop types is a string, a number, or
    [undefined] (a key can be present with value [undefined]).  A props
    object is a finite map from attribute names to such values. *)

Inductive AttrValue : Type :=
| AString (s : string)
| ANumber (n : number)
| AUndefined.

Abbreviation PropsObject := (gmap string AttrValue).

(** [{...target, ...source}]: every own key of [source] replaces the one of
    [target]. *)
Definition spread (source target : PropsObject) : PropsObject :=
  source ∪ target.

(** The keys picked by [NodeProps] and [LinkProps]. *)
Definition NodeProps_keys : gset string :=
  {[ "stroke"; "strokeOpacity"; "strokeWidth"; "fill"; "fillOpacity" ]}.

Definition LinkProps_keys : gset string :=
  {[ "fill"; "fillOpacity"; "stroke"; "strokeOpacity"; "strokeWidth";
     "strokeDasharray"; "strokeDashoffset" ]}.

Definition is_NodeProps (m : PropsObject) : Prop := dom m ⊆ NodeProps_keys.
Definition is_LinkProps (m : PropsObject) : Prop := dom m ⊆ LinkProps_keys.

Definition DEFAULT_COLOR : string := "#000".

(** ** Graphs, props and the rendered tree *)

Section Component.

(** Caller-supplied node and link data.  [NodeDatum] and [LinkDatum] stand for
    every property of a node or link that the component does not read itself
    (the caller's extra properties and the engine's other computed fields);
    [UserNode] is whatever the caller's render function returns. *)
Context {NodeDatum LinkDatum UserNode : Type}.

Record SankeyNode : Type := {
  node_datum : NodeDatum;
  x0 : option number;
  x1 : option number;
  y0 : option number;
  y1 : option number;
}.

Record SankeyLink : Type := {
  link_datum : LinkDatum;
  width : option number;
}.

Record SankeyGraph : Type := {
  nodes : list SankeyNode;
  links : list SankeyLink;
}.

(** [string | number], the result of a node id accessor. *)
Inductive NodeKey : Type :=
| KeyString (s : string)
| KeyNumber (n : number).

(** [number | undefined | null], the result of a sort comparator. *)
Inductive SortResult : Type :=
| SortNumber (n : number)
| SortUndefined
| SortNull.

Definition NodeIdAccessor : Type := SankeyNode -> NodeKey.
Definition NodeAlign : Type := SankeyNode -> number -> number.
Definition Extent : Type := (number * number) * (number * number).
Definition Size : Type := number * number.
Definition NodeSort : Type := SankeyNode -> SankeyNode -> SortResult.
Definition LinkSort : Type := SankeyLink -> SankeyLink -> SortResult.
Definition PointAccessor : Type := SankeyLink -> number * number.

Record SankeyProps : Type := {
  root : SankeyGraph;
  children : option (SankeyGraph -> UserNode);
  nodeId : option NodeIdAccessor;
  nodeWidth : option number;
  nodePadding : option number;
  nodeAlign : option NodeAlign;
  extent : option Extent;
  size : option Size;
  iterations : option number;
  nodeSort : option NodeSort;
  linkSort : option LinkSort;
  nodeProps : option PropsObject;
  linkProps : option PropsObject;
  sourceAccessor : option PointAccessor;
  targetAccessor : option PointAccessor;
}.

(** What the component returns: [null], a fragment, a [<Group>], a host
    element, or the caller's own rendering.  A host element
    [RElement tag key props] is the JSX [<tag key={key} {...props} />]: the
    key attribute as the component writes it, and the other attributes after
    all spreading.  These come later than the key attribute, so a [key] entry
    of [props] (one that a spread props object carried in) replaces the
    written key; [element_key] below gives the key that results. *)
Inductive ReactNode : Type :=
| RNull
| RFragment (kids : list ReactNode)
| RGroup (kids : list ReactNode)
| RElement (tag : string) (key : nat) (props : PropsObject)
| RUser (u : UserNode).

(** ** The layout engine and the path generator

    The object returned by [d3sankey()]: nine setters and the layout call.
    Setters mutate the engine and return it; here they pass the state on. *)
Class SankeyLayout (E : Type) : Type := {
  d3sankey : E;
  sankey_nodeId : NodeIdAccessor -> E -> E;
  sankey_nodeWidth : number -> E -> E;
  sankey_nodePadding : number -> E -> E;
  sankey_nodeAlign : NodeAlign -> E -> E;
  sankey_extent : Extent -> E -> E;
  sankey_size : Size -> E -> E;
  sankey_iterations : number -> E -> E;
  sankey_nodeSort : NodeSort -> E -> E;
  sankey_linkSort : LinkSort -> E -> E;
  sankey_apply : E -> SankeyGraph -> SankeyGraph;
}.

(** The object returned by [sankeyLinkHorizontal()]; applying it to a link
    gives a path description or [null]. *)
Class SankeyLinkPath (P : Type) : Type := {
  sankeyLinkHorizontal : P;
  path_source : PointAccessor -> P -> P;
  path_target : PointAccessor -> P -> P;
  path_apply : P -> SankeyLink -> option string;
}.

(** ** The component *)

Section Render.

Context {E P : Type} `{SankeyLayout E} `{SankeyLinkPath P}.

(** Lines 112-121: the engine after the guarded setter calls. *)
Definition configure (p : SankeyProps) : E :=
  let sankey := d3sankey in
  let sankey := when (nodeId p) sankey_nodeId sankey in
  let sankey := when (nodeWidth p) sankey_nodeWidth sankey in
  let sankey := when (nodePadding p) sankey_nodePadding sankey in
  let sankey := when (nodeAlign p) sankey_nodeAlign sankey in
  let sankey := when (extent p) sankey_extent sankey in
  let sankey := when (size p) sankey_size sankey in
  let sankey := when (iterations p) sankey_iterations sankey in
  let sankey := when (nodeSort p) sankey_nodeSort sankey in
  let sankey := when (linkSort p) sankey_linkSort sankey in
  sankey.

(** Line 123: [sankey(root)]. *)
Definition computed_graph (p : SankeyProps) : SankeyGraph :=
  sankey_apply (configure p) (root p).

(** Lines 124-126: the path generator. *)
Definition path_generator (p : SankeyProps) : P :=
  let path := sankeyLinkHorizontal in
  let path := when (sourceAccessor p) path_source path in
  let path := when (targetAccessor p) path_target path in
  path.

(** Lines 136-144: the [<path>] of link [i]; first its attributes, the
    defaults followed by [{...linkProps}]. *)
Definition link_attributes (path : P) (linkProps : PropsObject)
    (link : SankeyLink) : PropsObject :=
  spread linkProps
    (<["strokeOpacity" := ANumber half]>
     (<["strokeWidth" := ANumber (Math_max one (nullish (width link) zero))]>
      (<["stroke" := AString DEFAULT_COLOR]>
       (<["fill" := AString "transparent"]>
        (<["d" := AString (nullish (path_apply path link) "")]> ∅))))).

(** [key={i}] is written before [{...linkProps}]: the element keeps the
    written key apart from the attributes, a [key] of [linkProps] among
    them. *)
Definition link_element (path : P) (linkProps : PropsObject)
    (i : nat) (link : SankeyLink) : ReactNode :=
  RElement "path" i (link_attributes path linkProps link).

(** Lines 149-160: the [<rect>] of node [i], or [null]; first its
    attributes, the defaults followed by [{...nodeProps}]. *)
Definition node_attributes (nodeProps : PropsObject)
    (vx0 vx1 vy0 vy1 : number) : PropsObject :=
  spread nodeProps
    (<["y" := ANumber vy0]>
     (<["x" := ANumber vx0]>
      (<["height" := ANumber (number_sub vy1 vy0)]>
       (<["width" := ANumber (number_sub vx1 vx0)]>
        (<["fill" := AString DEFAULT_COLOR]> ∅))))).

(** [key={i}] is written before [{...nodeProps}], as for a link. *)
Definition node_element (nodeProps : PropsObject)
    (i : nat) (node : SankeyNode) : ReactNode :=
  match y0 node, y1 node, x0 node, x1 node with
  | Some vy0, Some vy1, Some vx0, Some vx1 =>
      RElement "rect" i (node_attributes nodeProps vx0 vx1 vy0 vy1)
  | _, _, _, _ => RNull
  end.

(** Lines 132-163: the default shapes. *)
Definition default_shapes (p : SankeyProps) (graph : SankeyGraph)
    (path : P) : ReactNode :=
  RFragment
    [ RGroup (imap (link_element path (nullish (linkProps p) ∅)) (links graph));
      RGroup (imap (node_element (nullish (nodeProps p) ∅)) (nodes graph)) ].

(** The component. *)
Definition Sankey (p : SankeyProps) : ReactNode :=
  let graph := computed_graph p in
  let path := path_generator p in
  match children p with
  | Some render => RFragment [RUser (render graph)]
  | None => default_shapes p graph path
  end.

End Render.

(** ** Observing the setter calls

    One constructor per engine setter, carrying the argument of the call. *)
Inductive SetterCall : Type :=
| Call_nodeId (f : NodeIdAccessor)
| Call_nodeWidth (n : number)
| Call_nodePadding (n : number)
| Call_nodeAlign (f : NodeAlign)
| Call_extent (e : Extent)
| Call_size (s : Size)
| Call_iterations (n : number)
| Call_nodeSort (f : NodeSort)
| Call_linkSort (f : LinkSort).

(** The nine configuration options. *)
Inductive OptionName : Type :=
| OptNodeId | OptNodeWidth | OptNodePadding | OptNodeAlign | OptExtent
| OptSize | OptIterations | OptNodeSort | OptLinkSort.

Definition setter_of (c : SetterCall) : OptionName :=
  match c with
  | Call_nodeId _ => OptNodeId
  | Call_nodeWidth _ => OptNodeWidth
  | Call_nodePadding _ => OptNodePadding
  | Call_nodeAlign _ => OptNodeAlign
  | Call_extent _ => OptExtent
  | Call_size _ => OptSize
  | Call_iterations _ => OptIterations
  | Call_nodeSort _ => OptNodeSort
  | Call_linkSort _ => OptLinkSort
  end.

Definition is_provided {A : Type} (o : option A) : bool :=
  match o with Some _ => true | None => false end.

(** Whether the caller passed the option at all (any value but
    [undefined]). *)
Definition provided (p : SankeyProps) (o : OptionName) : bool :=
  match o with
  | OptNodeId => is_provided (nodeId p)
  | OptNodeWidth => is_provided (nodeWidth p)
  | OptNodePadding => is_provided (nodePadding p)
  | OptNodeAlign => is_provided (nodeAlign p)
  | OptExtent => is_provided (extent p)
  | OptSize => is_provided (size p)
  | OptIterations => is_provided (iterations p)
  | OptNodeSort => is_provided (nodeSort p)
  | OptLinkSort => is_provided (linkSort p)
  end.

(** A call carries the value the caller supplied for its option, and that
    value is truthy. *)
Definition passes {A : Type} `{ToBoolean A} (o : option A) (v : A) : Prop :=
  o = Some v /\ truthy v = true.

Definition supplied (p : SankeyProps) (c : SetterCall) : Prop :=
  match c with
  | Call_nodeId f => passes (nodeId p) f
  | Call_nodeWidth n => passes (nodeWidth p) n
  | Call_nodePadding n => passes (nodePadding p) n
  | Call_nodeAlign f => passes (nodeAlign p) f
  | Call_extent e => passes (extent p) e
  | Call_size s => passes (size p) s
  | Call_iterations n => passes (iterations p) n
  | Call_nodeSort f => passes (nodeSort p) f
  | Call_linkSort f => passes (linkSort p) f
  end.

(** An engine that only records the setter calls it receives, oldest first,
    and lays nothing out: the graph comes back as it was given. *)
Definition Recorder : SankeyLayout (list SetterCall) := {|
  d3sankey := [];
  sankey_nodeId f log := log ++ [Call_nodeId f];
  sankey_nodeWidth n log := log ++ [Call_nodeWidth n];
  sankey_nodePadding n log := log ++ [Call_nodePadding n];
  sankey_nodeAlign f log := log ++ [Call_nodeAlign f];
  sankey_extent e log := log ++ [Call_extent e];
  sankey_size s log := log ++ [Call_size s];
  sankey_iterations n log := log ++ [Call_iterations n];
  sankey_nodeSort f log := log ++ [Call_nodeSort f];
  sankey_linkSort f log := log ++ [Call_linkSort f];
  sankey_apply _ graph := graph;
|}.

(** The setter calls the component makes for props [p], in order. *)
Definition setter_calls (p : SankeyProps) : list SetterCall :=
  @configure (list SetterCall) Recorder p.

(** Performing a recorded call on an engine. *)
Definition invoke {E : Type} `{SankeyLayout E} (sankey : E) (c : SetterCall) : E :=
  match c with
  | Call_nodeId f => sankey_nodeId f sankey
  | Call_nodeWidth n => sankey_nodeWidth n sankey
  | Call_nodePadding n => sankey_nodePadding n sankey
  | Call_nodeAlign f => sankey_nodeAlign f sankey
  | Call_extent e => sankey_extent e sankey
  | Call_size s => sankey_size s sankey
  | Call_iterations n => sankey_iterations n sankey
  | Call_nodeSort f => sankey_nodeSort f sankey
  | Call_linkSort f => sankey_linkSort f sankey
  end.

Definition replay {E : Type} `{SankeyLayout E} (calls : list SetterCall) (sankey : E) : E :=
  fold_left invoke calls sankey.

(** The call, if any, that one guarded line [if (o) sankey.o(o)] makes. *)
Definition guarded_call {A : Type} `{ToBoolean A}
    (o : option A) (call : A -> SetterCall) : list SetterCall :=
  when o (fun v _ => [call v]) [].

(** ** Observing the rendered tree *)

(** The children of the first and of the second [<Group>] of the default
    rendering. *)
Definition link_shapes (r : ReactNode) : list ReactNode :=
  match r with
  | RFragment (RGroup kids :: _) => kids
  | _ => []
  end.

Definition node_shapes (r : ReactNode) : list ReactNode :=
  match r with
  | RFragment (_ :: RGroup kids :: _) => kids
  | _ => []
  end.

(** Every host element of a tree, in document order; the caller's own
    rendering is opaque. *)
Fixpoint elements (r : ReactNode) : list (string * nat * PropsObject) :=
  match r with
  | RNull => []
  | RFragment kids => flat_map elements kids
  | RGroup kids => flat_map elements kids
  | RElement tag key props => [(tag, key, props)]
  | RUser _ => []
  end.

(** The number of [<Group>] containers of a tree. *)
Fixpoint groups (r : ReactNode) : nat :=
  match r with
  | RFragment kids => list_sum (map groups kids)
  | RGroup kids => S (list_sum (map groups kids))
  | RNull | RElement _ _ _ | RUser _ => 0
  end.

(** The [strokeWidth] of a props object is a number that is at least 1. *)
Definition stroke_width_ge_1 (props : PropsObject) : bool :=
  match props !! "strokeWidth" with
  | Some (ANumber n) => number_le one n
  | _ => false
  end.

(** All four bounds of a node, when all are defined. *)
Definition bounds (node : SankeyNode) : option (number * number * number * number) :=
  match x0 node, x1 node, y0 node, y1 node with
  | Some vx0, Some vx1, Some vy0, Some vy1 => Some (vx0, vx1, vy0, vy1)
  | _, _, _, _ => None
  end.

(** Every [<path>] of a tree has a stroke width of at least 1. *)
Definition stroke_widths_ge_1 (r : ReactNode) : Prop :=
  forall key props, In ("path", key, props) (elements r) ->
    stroke_width_ge_1 props = true.

(** No [<path>] is rendered for a link of [graph] for which the generator
    [path] resolves no path. *)
Definition omits_unresolved_links {P : Type} `{SankeyLinkPath P}
    (path : P) (graph : SankeyGraph) (r : ReactNode) : Prop :=
  forall i link, links graph !! i = Some link ->
    path_apply path link = None ->
    forall props, ~ In ("path", i, props) (elements r).

End Component.

(** ** Props with one option replaced, and props without falsy options *)

Section Updates.

Context {NodeDatum LinkDatum UserNode : Type}.

Local Abbreviation Props := (@SankeyProps NodeDatum LinkDatum UserNode).

Definition with_nodeWidth (v : option number) (p : Props) : Props :=
  {| root := root p; children := children p; nodeId := nodeId p;
     nodeWidth := v; nodePadding := nodePadding p; nodeAlign := nodeAlign p;
     extent := extent p; size := size p; iterations := iterations p;
     nodeSort := nodeSort p; linkSort := linkSort p;
     nodeProps := nodeProps p; linkProps := linkProps p;
     sourceAccessor := sourceAccessor p; targetAccessor := targetAccessor p |}.

Definition with_nodePadding (v : option number) (p : Props) : Props :=
  {| root := root p; children := children p; nodeId := nodeId p;
     nodeWidth := nodeWidth p; nodePadding := v; nodeAlign := nodeAlign p;
     extent := extent p; size := size p; iterations := iterations p;
     nodeSort := nodeSort p; linkSort := linkSort p;
     nodeProps := nodeProps p; linkProps := linkProps p;
     sourceAccessor := sourceAccessor p; targetAccessor := targetAccessor p |}.

Definition with_iterations (v : option number) (p : Props) : Props :=
  {| root := root p; children := children p; nodeId := nodeId p;
     nodeWidth := nodeWidth p; nodePadding := nodePadding p;
     nodeAlign := nodeAlign p; extent := extent p; size := size p;
     iterations := v; nodeSort := nodeSort p; linkSort := linkSort p;
     nodeProps := nodeProps p; linkProps := linkProps p;
     sourceAccessor := sourceAccessor p; targetAccessor := targetAccessor p |}.

(** An option as the guards see it: a falsy value counts as [undefined]. *)
Definition keep_truthy {A : Type} `{ToBoolean A} (o : option A) : option A :=
  match o with
  | Some v => if truthy v then Some v else None
  | None => None
  end.

Definition omit_falsy (p : Props) : Props :=
  {| root := root p; children := children p;
     nodeId := keep_truthy (nodeId p);
     nodeWidth := keep_truthy (nodeWidth p);
     nodePadding := keep_truthy (nodePadding p);
     nodeAlign := keep_truthy (nodeAlign p);
     extent := keep_truthy (extent p);
     size := keep_truthy (size p);
     iterations := keep_truthy (iterations p);
     nodeSort := keep_truthy (nodeSort p);
     linkSort := keep_truthy (linkSort p);
     nodeProps := nodeProps p; linkProps := linkProps p;
     sourceAccessor := sourceAccessor p; targetAccessor := targetAccessor p |}.

(** Two props objects give the layout engine the same input: the same graph
    and the same nine options. *)
Definition same_layout_input (p q : Props) : Prop :=
  root p = root q /\ nodeId p = nodeId q /\ nodeWidth p = nodeWidth q /\
  nodePadding p = nodePadding q /\ nodeAlign p = nodeAlign q /\
  extent p = extent q /\ size p = size q /\ iterations p = iterations q /\
  nodeSort p = nodeSort q /\ linkSort p = linkSort q.

(** Two props objects agree on everything that only rendering reads. *)
Definition same_render_input (p q : Props) : Prop :=
  children p = children q /\ nodeProps p = nodeProps q /\
  linkProps p = linkProps q /\ sourceAccessor p = sourceAccessor q /\
  targetAccessor p = targetAccessor q.

End Updates.

(** ** A small diagram to evaluate the component on *)

Module Fixture.

(** The integer [z] as a number. *)
Definition num (z : Z) : number := binary_normalize prec emax z 0 false.

Definition Node : Type := @SankeyNode string.
Definition Link : Type := @SankeyLink (string * string).
Definition Graph : Type := @SankeyGraph string (string * string).
Definition Props : Type := @SankeyProps string (string * string) nat.

(** A placed node, and a node the layout left without a [y0]. *)
Definition placed : Node :=
  {| node_datum := "a"; x0 := Some (num 0); x1 := Some (num 24);
     y0 := Some (num 10); y1 := Some (num 90) |}.

Definition unplaced : Node :=
  {| node_datum := "b"; x0 := Some (num 76); x1 := Some (num 100);
     y0 := None; y1 := Some (num 90) |}.

(** A wide link, a link of width zero and a link without a width. *)
Definition wide : Link := {| link_datum := ("a", "b"); width := Some (num 10) |}.
Definition flat : Link := {| link_datum := ("a", "b"); width := Some zero |}.
Definition bare : Link := {| link_datum := ("a", "c"); width := None |}.

Definition graph : Graph :=
  {| nodes := [placed; unplaced]; links := [wide; flat; bare] |}.

(** A path generator that resolves a path only for links that have a
    width. *)
Definition Paths : @SankeyLinkPath (string * string) unit := {|
  sankeyLinkHorizontal := tt;
  path_source _ path := path;
  path_target _ path := path;
  path_apply _ link :=
    match width link with
    | Some _ => Some "M24,50C50,50,50,50,76,50"
    | None => None
    end;
|}.

Definition plain : Props :=
  {| root := graph; children := None; nodeId := None; nodeWidth := None;
     nodePadding := None; nodeAlign := None; extent := None; size := None;
     iterations := None; nodeSort := None; linkSort := None;
     nodeProps := None; linkProps := None;
     sourceAccessor := None; targetAccessor := None |}.

(** Every numeric option given, [iterations] as zero. *)
Definition tuned : Props :=
  {| root := graph; children := None; nodeId := None;
     nodeWidth := Some (num 12); nodePadding := Some (num 4);
     nodeAlign := None; extent := None; size := Some (num 100, num 100);
     iterations := Some zero; nodeSort := None; linkSort := None;
     nodeProps := None; linkProps := None;
     sourceAccessor := None; targetAccessor := None |}.

(** A render override that reports how many nodes it was given. *)
Definition overridden : Props :=
  {| root := graph; children := Some (fun g => length (nodes g));
     nodeId := None; nodeWidth := None;
     nodePadding := None; nodeAlign := None; extent := None; size := None;
     iterations := None; nodeSort := None; linkSort := None;
     nodeProps := None; linkProps := None;
     sourceAccessor := None; targetAccessor := None |}.

(** Style overrides: hairline links, and red nodes without an outline. *)
Definition styled : Props :=
  {| root := graph; children := None; nodeId := None; nodeWidth := None;
     nodePadding := None; nodeAlign := None; extent := None; size := None;
     iterations := None; nodeSort := None; linkSort := None;
     nodeProps :=
       Some {[ "fill" := AString "red"; "strokeWidth" := ANumber zero ]};
     linkProps := Some {[ "strokeWidth" := ANumber zero ]};
     sourceAccessor := None; targetAccessor := None |}.

(** The call that [tuned] makes for its node width. *)
Definition width_call : @SetterCall string (string * string) :=
  Call_nodeWidth (num 12).

(** The component on the recording engine and the path generator above. *)
Definition render (p : Props) : @ReactNode nat :=
  @Sankey _ _ _ _ _ Recorder Paths p.

End Fixture.

(** ** Further observations *)

(** The options in the order of their guarded lines, 113 to 121. *)
Definition setter_order : list OptionName :=
  [OptNodeId; OptNodeWidth; OptNodePadding; OptNodeAlign; OptExtent; OptSize;
   OptIterations; OptNodeSort; OptLinkSort].

(** A node with all four bounds. *)
Definition is_placed {NodeDatum : Type} (node : @SankeyNode NodeDatum) : bool :=
  match bounds node with Some _ => true | None => false end.

(** The attribute names that the component itself sets on a path and on a
    rect. *)
Definition path_default_keys : gset string :=
  {[ "d"; "fill"; "stroke"; "strokeWidth"; "strokeOpacity" ]}.

Definition rect_default_keys : gset string :=
  {[ "fill"; "width"; "height"; "x"; "y" ]}.

(** The key that the attributes of a host element specify: the [key] that a
    spread props object carried in, if there is one, and otherwise the index
    written as [key={i}]. *)
Inductive ElementKey : Type :=
| IndexKey (i : nat)
| PropsKey (v : AttrValue).

Definition element_key {UserNode : Type} (r : @ReactNode UserNode) :
    option ElementKey :=
  match r with
  | RElement _ key props =>
      Some (match props !! "key" with
            | Some v => PropsKey v
            | None => IndexKey key
            end)
  | _ => None
  end.

(** The tag of an entry of [elements]. *)
Definition entry_tag (e : string * nat * PropsObject) : string := e.1.1.

(** More props for the small diagram. *)
Module Cases.

Import Fixture.

(** Both an extent and a size. *)
Definition framed : Props :=
  {| root := graph; children := None; nodeId := None; nodeWidth := None;
     nodePadding := Some (num 4); nodeAlign := None;
     extent := Some ((num 10, num 10), (num 50, num 50));
     size := Some (num 100, num 100);
     iterations := Some (num 32); nodeSort := None; linkSort := None;
     nodeProps := None; linkProps := None;
     sourceAccessor := None; targetAccessor := None |}.

Definition extent_of_framed : @Extent := ((num 10, num 10), (num 50, num 50)).
Definition size_of_framed : @Size := (num 100, num 100).

Definition size_call : @SetterCall string (string * string) :=
  Call_size size_of_framed.

(** [styled] with point accessors. *)
Definition aimed : Props :=
  {| root := graph; children := None; nodeId := None; nodeWidth := None;
     nodePadding := None; nodeAlign := None; extent := None; size := None;
     iterations := None; nodeSort := None; linkSort := None;
     nodeProps :=
       Some {[ "fill" := AString "red"; "strokeWidth" := ANumber zero ]};
     linkProps := Some {[ "strokeWidth" := ANumber zero ]};
     sourceAccessor := Some (fun _ => (num 24, num 50));
     targetAccessor := Some (fun _ => (num 76, num 50)) |}.

(** [overridden] with style props and an accessor. *)
Definition overridden_styled : Props :=
  {| root := graph; children := Some (fun g => length (nodes g));
     nodeId := None; nodeWidth := None;
     nodePadding := None; nodeAlign := None; extent := None; size := None;
     iterations := None; nodeSort := None; linkSort := None;
     nodeProps := Some {[ "fill" := AString "red" ]};
     linkProps := Some {[ "stroke" := AString "red" ]};
     sourceAccessor := Some (fun _ => (num 24, num 50));
     targetAccessor := None |}.

(** Only the stroke colour of links overridden. *)
Definition recoloured : Props :=
  {| root := graph; children := None; nodeId := None; nodeWidth := None;
     nodePadding := None; nodeAlign := None; extent := None; size := None;
     iterations := None; nodeSort := None; linkSort := None;
     nodeProps := Some {[ "stroke" := AString "red" ]};
     linkProps := Some {[ "stroke" := AString "red" ]};
     sourceAccessor := None; targetAccessor := None |}.

(** Style props that carry a [key], which their declared types do not
    allow. *)
Definition keyed : Props :=
  {| root := graph; children := None; nodeId := None; nodeWidth := None;
     nodePadding := None; nodeAlign := None; extent := None; size := None;
     iterations := None; nodeSort := None; linkSort := None;
     nodeProps := Some {[ "key" := ANumber (num 5) ]};
     linkProps := Some {[ "key" := ANumber (num 5) ]};
     sourceAccessor := None; targetAccessor := None |}.

(** Zero for every numeric option, nothing else. *)
Definition zeroed : Props :=
  {| root := graph; children := None; nodeId := None;
     nodeWidth := Some zero; nodePadding := Some zero;
     nodeAlign := None; extent := None; size := None;
     iterations := Some zero; nodeSort := None; linkSort := None;
     nodeProps := None; linkProps := None;
     sourceAccessor := None; targetAccessor := None |}.

End Cases.

(** * Properties *)

(** ** Numbers *)

Lemma half_is_one_over_two :
  half = SFdiv prec emax one (SFadd prec emax one one).
Proof. vm_compute. reflexivity. Qed.

Lemma zero_is_falsy : truthy zero = false.
Proof. reflexivity. Qed.

(** A number is falsy exactly when it is a zero or NaN. *)
Lemma number_falsy (n : number) :
  truthy n = false <-> n = S754_zero false \/ n = S754_zero true \/ n = S754_nan.
Proof.
  split.
  - destruct n as [[|]| | |]; cbn; intros Hn; auto; discriminate Hn.
  - intros [-> | [-> | ->]]; reflexivity.
Qed.

(** Without NaN, [Math.max(1, w)] is at least 1. *)
Lemma Math_max_one_ge (w : number) :
  isNaN w = false -> number_le one (Math_max one w) = true.
Proof.
  intros Hw. unfold Math_max, number_le.
  destruct (SFcompare one w) as [[| |]|] eqn:Hcmp.
  - reflexivity.
  - unfold SFleb. rewrite Hcmp. reflexivity.
  - reflexivity.
  - destruct w; cbn in Hcmp, Hw; discriminate.
Qed.

(** With NaN it is NaN, which is not at least anything. *)
Lemma Math_max_one_NaN : number_le one (Math_max one S754_nan) = false.
Proof. reflexivity. Qed.

(** ** Guards *)

Section Guards.

Context {A S : Type} `{ToBoolean A}.

Lemma when_None (set : A -> S -> S) (s : S) : when None set s = s.
Proof. reflexivity. Qed.

Lemma when_truthy (v : A) (set : A -> S -> S) (s : S) :
  truthy v = true -> when (Some v) set s = set v s.
Proof. intros Hv. unfold when. rewrite Hv. reflexivity. Qed.

Lemma when_falsy (v : A) (set : A -> S -> S) (s : S) :
  truthy v = false -> when (Some v) set s = when None set s.
Proof. intros Hv. unfold when. rewrite Hv. reflexivity. Qed.

Lemma when_keep_truthy (o : option A) (set : A -> S -> S) (s : S) :
  when (keep_truthy o) set s = when o set s.
Proof.
  destruct o as [v|]; [|reflexivity].
  unfold keep_truthy, when. destruct (truthy v) eqn:Hv; [|reflexivity].
  rewrite Hv. reflexivity.
Qed.

End Guards.

(** ** Setter calls *)

Section SetterCalls.

Context {NodeDatum LinkDatum UserNode : Type}.

Local Abbreviation Props := (@SankeyProps NodeDatum LinkDatum UserNode).
Local Abbreviation Call := (@SetterCall NodeDatum LinkDatum).

(** On the recording engine a guarded line appends its call, if any. *)
Lemma when_record {A : Type} `{ToBoolean A}
    (o : option A) (call : A -> Call) (log : list Call) :
  when o (fun v log => log ++ [call v]) log = log ++ guarded_call o call.
Proof.
  unfold guarded_call, when. destruct o as [v|].
  - destruct (truthy v); [reflexivity | symmetry; apply app_nil_r].
  - symmetry. apply app_nil_r.
Qed.

(** The calls of the component, line by line. *)
Lemma setter_calls_unfold (p : Props) :
  setter_calls p =
    guarded_call (nodeId p) Call_nodeId ++
    guarded_call (nodeWidth p) Call_nodeWidth ++
    guarded_call (nodePadding p) Call_nodePadding ++
    guarded_call (nodeAlign p) Call_nodeAlign ++
    guarded_call (extent p) Call_extent ++
    guarded_call (size p) Call_size ++
    guarded_call (iterations p) Call_iterations ++
    guarded_call (nodeSort p) Call_nodeSort ++
    guarded_call (linkSort p) Call_linkSort.
Proof.
  unfold setter_calls, configure. cbn [d3sankey sankey_nodeId sankey_nodeWidth
    sankey_nodePadding sankey_nodeAlign sankey_extent sankey_size
    sankey_iterations sankey_nodeSort sankey_linkSort Recorder].
  rewrite !when_record. cbn [app]. rewrite <- !app_assoc. reflexivity.
Qed.

Lemma in_guarded_call {A : Type} `{ToBoolean A}
    (o : option A) (call : A -> Call) (c : Call) :
  In c (guarded_call o call) -> exists v, c = call v /\ passes o v.
Proof.
  unfold guarded_call, when, passes. destruct o as [v|]; [|intros []].
  destruct (truthy v) eqn:Hv; [|intros []].
  intros [<- | []]. exists v. auto.
Qed.

Lemma passes_provided {A : Type} `{ToBoolean A} (o : option A) (v : A) :
  passes o v -> is_provided o = true.
Proof. intros [-> _]. reflexivity. Qed.

Lemma in_setter_calls (p : Props) (c : Call) :
  In c (setter_calls p) -> supplied p c.
Proof.
  rewrite setter_calls_unfold. rewrite !in_app_iff.
  intros Hin; repeat destruct Hin as [Hin | Hin];
    apply in_guarded_call in Hin as (v & -> & Hv); exact Hv.
Qed.

Lemma supplied_provided (p : Props) (c : Call) :
  supplied p c -> provided p (setter_of c) = true.
Proof. destruct c; cbn; apply passes_provided. Qed.

Section Engine.

Context {E : Type} {engine : @SankeyLayout NodeDatum LinkDatum E}.

Lemma replay_app (l1 l2 : list Call) (sankey : E) :
  replay (l1 ++ l2) sankey = replay l2 (replay l1 sankey).
Proof. apply fold_left_app. Qed.

Lemma replay_guarded_call {A : Type} `{ToBoolean A}
    (o : option A) (call : A -> Call) (set : A -> E -> E) (sankey : E) :
  (forall v s, invoke s (call v) = set v s) ->
  replay (guarded_call o call) sankey = when o set sankey.
Proof.
  intros Hset. unfold guarded_call, when. destruct o as [v|]; [|reflexivity].
  destruct (truthy v); [|reflexivity]. cbn. apply Hset.
Qed.

(** Any engine ends up in the state that the recorded calls, replayed on a
    fresh instance, lead to. *)
Lemma configure_replay (p : Props) :
  configure p = replay (setter_calls p) d3sankey.
Proof.
  rewrite setter_calls_unfold, !replay_app.
  rewrite !(replay_guarded_call _ _ _ _ (fun _ _ => eq_refl)).
  reflexivity.
Qed.

Lemma configure_omit_falsy (p : Props) :
  configure (omit_falsy p) = configure p.
Proof. unfold configure, omit_falsy; cbn. rewrite !when_keep_truthy. reflexivity. Qed.

End Engine.
End SetterCalls.

(** ** Configuration *)

Section Configuration.

Context {NodeDatum LinkDatum UserNode E P : Type}.
Context {engine : @SankeyLayout NodeDatum LinkDatum E}.
Context {generator : @SankeyLinkPath LinkDatum P}.

Local Abbreviation Props := (@SankeyProps NodeDatum LinkDatum UserNode).
Local Abbreviation Call := (@SetterCall NodeDatum LinkDatum).

(** The rendering does not tell a falsy option from an omitted one. *)
Lemma Sankey_omit_falsy (p : Props) : Sankey (omit_falsy p) = Sankey p.
Proof.
  unfold Sankey, computed_graph. rewrite configure_omit_falsy. reflexivity.
Qed.

(** Rendering reads the nine layout options only through [configure]. *)
Lemma Sankey_configure (p q : Props) :
  configure p = configure q -> root p = root q -> same_render_input p q ->
  Sankey p = Sankey q.
Proof.
  intros Hc Hr (Hch & Hnp & Hlp & Hsa & Hta).
  unfold Sankey, computed_graph, path_generator, default_shapes.
  rewrite Hc, Hr, Hch, Hnp, Hlp, Hsa, Hta. reflexivity.
Qed.

(** C1: a setter of the layout engine is invoked only for an option the
    caller provided, and with the provided value, which is never falsy; for an
    omitted option no call of its setter is made.  The engine is the fresh
    instance on which exactly these calls were performed, so an omitted option
    keeps the engine's own default. *)
Theorem setter_called_only_when_provided (p : Props) (c : Call) :
  In c (setter_calls p) ->
  supplied p c /\
  provided p (setter_of c) = true /\
  (forall o, provided p o = false -> setter_of c <> o) /\
  configure p = replay (setter_calls p) d3sankey.
Proof.
  intros Hin. pose proof (in_setter_calls p c Hin) as Hs.
  pose proof (supplied_provided p c Hs) as Hp.
  split; [exact Hs|]. split; [exact Hp|]. split.
  - intros o Ho Heq. rewrite Heq, Ho in Hp. discriminate Hp.
  - apply configure_replay.
Qed.

(** C2, on the code: an iteration count of zero never reaches the engine.  No
    call of the [iterations] setter is made, and the engine, the computed
    graph and the rendering are those obtained with [iterations] omitted. *)
Theorem iterations_zero_not_forwarded (p : Props) :
  (forall c, In c (setter_calls (with_iterations (Some zero) p)) ->
     setter_of c <> OptIterations) /\
  configure (with_iterations (Some zero) p) =
    configure (with_iterations None p) /\
  computed_graph (with_iterations (Some zero) p) =
    computed_graph (with_iterations None p) /\
  Sankey (with_iterations (Some zero) p) = Sankey (with_iterations None p).
Proof.
  assert (Hc : configure (with_iterations (Some zero) p) =
               configure (with_iterations None p)) by reflexivity.
  split; [|split; [|split]].
  - intros c Hin Heq. apply in_setter_calls in Hin.
    destruct c; try discriminate Heq. destruct Hin as [Hv Ht].
    cbn in Hv. injection Hv as <-. discriminate Ht.
  - exact Hc.
  - unfold computed_graph. rewrite Hc. reflexivity.
  - apply Sankey_configure; [exact Hc | reflexivity | repeat split].
Qed.

(** C9: an option supplied with a falsy value is treated as omitted.  For a
    falsy number [v] (zero in particular) given as [nodeWidth], [nodePadding]
    or [iterations], the setter is not called and the rendering is that of the
    props without the option; and for all nine options at once, dropping
    every falsy one changes neither the calls, nor the engine, nor the
    rendering. *)
Theorem falsy_option_same_as_omitted (p : Props) (v : number) :
  truthy v = false ->
  (setter_calls (with_nodeWidth (Some v) p) =
     setter_calls (with_nodeWidth None p) /\
   Sankey (with_nodeWidth (Some v) p) = Sankey (with_nodeWidth None p)) /\
  (setter_calls (with_nodePadding (Some v) p) =
     setter_calls (with_nodePadding None p) /\
   Sankey (with_nodePadding (Some v) p) = Sankey (with_nodePadding None p)) /\
  (setter_calls (with_iterations (Some v) p) =
     setter_calls (with_iterations None p) /\
   Sankey (with_iterations (Some v) p) = Sankey (with_iterations None p)) /\
  (setter_calls (omit_falsy p) = setter_calls p /\
   configure (omit_falsy p) = configure p /\
   Sankey (omit_falsy p) = Sankey p).
Proof.
  intros Hv.
  assert (Hw : forall (F : Type) (eng : @SankeyLayout NodeDatum LinkDatum F),
             @configure _ _ _ F eng (with_nodeWidth (Some v) p) =
             @configure _ _ _ F eng (with_nodeWidth None p)).
  { intros F eng. unfold configure; cbn -[when truthy].
    rewrite (when_falsy v _ _ Hv). reflexivity. }
  assert (Hp : forall (F : Type) (eng : @SankeyLayout NodeDatum LinkDatum F),
             @configure _ _ _ F eng (with_nodePadding (Some v) p) =
             @configure _ _ _ F eng (with_nodePadding None p)).
  { intros F eng. unfold configure; cbn -[when truthy].
    rewrite (when_falsy v _ _ Hv). reflexivity. }
  assert (Hi : forall (F : Type) (eng : @SankeyLayout NodeDatum LinkDatum F),
             @configure _ _ _ F eng (with_iterations (Some v) p) =
             @configure _ _ _ F eng (with_iterations None p)).
  { intros F eng. unfold configure; cbn -[when truthy].
    rewrite (when_falsy v _ _ Hv). reflexivity. }
  split; [split|split; [split|split; [split|split; [|split]]]].
  - apply Hw.
  - apply Sankey_configure; [apply Hw | reflexivity | repeat split].
  - apply Hp.
  - apply Sankey_configure; [apply Hp | reflexivity | repeat split].
  - apply Hi.
  - apply Sankey_configure; [apply Hi | reflexivity | repeat split].
  - apply (@configure_omit_falsy _ _ _ _ Recorder).
  - apply configure_omit_falsy.
  - apply Sankey_omit_falsy.
Qed.

End Configuration.

(** ** Props objects *)

Lemma spread_override (source target : PropsObject) (k : string) (v : AttrValue) :
  source !! k = Some v -> spread source target !! k = Some v.
Proof. intros Hk. unfold spread. apply lookup_union_Some_l. exact Hk. Qed.

Lemma spread_default (source target : PropsObject) (k : string) :
  source !! k = None -> spread source target !! k = target !! k.
Proof. intros Hk. unfold spread. apply lookup_union_r. exact Hk. Qed.

Lemma spread_empty (target : PropsObject) : spread ∅ target = target.
Proof. unfold spread. apply (left_id_L ∅ (∪)). Qed.

(** A props object of type [LinkProps] has no [d]. *)
Lemma LinkProps_no_d (m : PropsObject) : is_LinkProps m -> m !! "d" = None.
Proof.
  intros Hm. apply not_elem_of_dom. intros Hd. apply Hm in Hd.
  revert Hd. unfold LinkProps_keys.
  rewrite !elem_of_union, !elem_of_singleton. intuition discriminate.
Qed.

(** A props object of type [NodeProps] has none of the geometry
    attributes. *)
Lemma NodeProps_no_geometry (m : PropsObject) :
  is_NodeProps m ->
  m !! "x" = None /\ m !! "y" = None /\ m !! "width" = None /\
  m !! "height" = None.
Proof.
  intros Hm. repeat split; apply not_elem_of_dom; intros Hd; apply Hm in Hd;
    revert Hd; unfold NodeProps_keys;
    rewrite !elem_of_union, !elem_of_singleton; intuition discriminate.
Qed.

(** ** Rendering *)

Section Rendering.

Context {NodeDatum LinkDatum UserNode E P : Type}.
Context {engine : @SankeyLayout NodeDatum LinkDatum E}.
Context {generator : @SankeyLinkPath LinkDatum P}.

Local Abbreviation Props := (@SankeyProps NodeDatum LinkDatum UserNode).
Local Abbreviation Node := (@SankeyNode NodeDatum).
Local Abbreviation Link := (@SankeyLink LinkDatum).

(** *** The attributes of one shape *)

Lemma link_attributes_defaults (path : P) (lp : PropsObject) (link : Link) (k : string) :
  lp !! k = None ->
  link_attributes path lp link !! k =
    ({[ "d" := AString (nullish (path_apply path link) "");
        "fill" := AString "transparent";
        "stroke" := AString "#000";
        "strokeWidth" := ANumber (Math_max one (nullish (width link) zero));
        "strokeOpacity" := ANumber half ]} : PropsObject) !! k.
Proof.
  intros Hk. unfold link_attributes. rewrite (spread_default _ _ _ Hk).
  reflexivity.
Qed.

Lemma node_attributes_defaults (np : PropsObject) (vx0 vx1 vy0 vy1 : number) (k : string) :
  np !! k = None ->
  node_attributes np vx0 vx1 vy0 vy1 !! k =
    ({[ "fill" := AString "#000";
        "width" := ANumber (number_sub vx1 vx0);
        "height" := ANumber (number_sub vy1 vy0);
        "x" := ANumber vx0;
        "y" := ANumber vy0 ]} : PropsObject) !! k.
Proof.
  intros Hk. unfold node_attributes. rewrite (spread_default _ _ _ Hk).
  reflexivity.
Qed.

Lemma node_element_bounds (np : PropsObject) (i : nat) (node : Node) :
  @node_element NodeDatum UserNode np i node =
    match bounds node with
    | Some (vx0, vx1, vy0, vy1) =>
        RElement "rect" i (node_attributes np vx0 vx1 vy0 vy1)
    | None => RNull
    end.
Proof.
  unfold node_element, bounds.
  destruct (y0 node), (y1 node), (x0 node), (x1 node); reflexivity.
Qed.

Lemma bounds_Some (node : Node) (vx0 vx1 vy0 vy1 : number) :
  bounds node = Some (vx0, vx1, vy0, vy1) <->
  x0 node = Some vx0 /\ x1 node = Some vx1 /\
  y0 node = Some vy0 /\ y1 node = Some vy1.
Proof.
  unfold bounds. split.
  - destruct (x0 node), (x1 node), (y0 node), (y1 node); intros Hb;
      try discriminate Hb. injection Hb as -> -> -> ->. auto.
  - intros (-> & -> & -> & ->). reflexivity.
Qed.

Lemma bounds_None (node : Node) :
  bounds node = None <->
  x0 node = None \/ x1 node = None \/ y0 node = None \/ y1 node = None.
Proof.
  unfold bounds. split.
  - destruct (x0 node), (x1 node), (y0 node), (y1 node); intros Hb;
      try discriminate Hb; auto.
  - destruct (x0 node), (x1 node), (y0 node), (y1 node);
      intros [Hb | [Hb | [Hb | Hb]]]; try discriminate Hb; reflexivity.
Qed.

(** *** The two render modes *)

Lemma Sankey_override (p : Props) (render : SankeyGraph -> UserNode) :
  children p = Some render ->
  Sankey p = RFragment [RUser (render (computed_graph p))].
Proof. intros Hc. unfold Sankey. rewrite Hc. reflexivity. Qed.

Lemma Sankey_default (p : Props) :
  children p = None ->
  Sankey p = default_shapes p (computed_graph p) (path_generator p).
Proof. intros Hc. unfold Sankey. rewrite Hc. reflexivity. Qed.

Lemma link_shapes_default (p : Props) :
  children p = None ->
  link_shapes (Sankey p) =
    imap (link_element (path_generator p) (nullish (linkProps p) ∅))
      (links (computed_graph p)).
Proof. intros Hc. rewrite (Sankey_default p Hc). reflexivity. Qed.

Lemma node_shapes_default (p : Props) :
  children p = None ->
  node_shapes (Sankey p) =
    imap (node_element (nullish (nodeProps p) ∅)) (nodes (computed_graph p)).
Proof. intros Hc. rewrite (Sankey_default p Hc). reflexivity. Qed.

(** Each link has its [<path>], at the link's own position. *)
Lemma link_shape_lookup (p : Props) (i : nat) (link : Link) :
  children p = None ->
  links (computed_graph p) !! i = Some link ->
  link_shapes (Sankey p) !! i =
    Some (RElement "path" i
            (link_attributes (path_generator p) (nullish (linkProps p) ∅) link)).
Proof.
  intros Hc Hl. rewrite (link_shapes_default p Hc), list_lookup_imap, Hl.
  reflexivity.
Qed.

(** Each node has its [<rect>] or [null], at the node's own position. *)
Lemma node_shape_lookup (p : Props) (i : nat) (node : Node) :
  children p = None ->
  nodes (computed_graph p) !! i = Some node ->
  node_shapes (Sankey p) !! i =
    Some (node_element (nullish (nodeProps p) ∅) i node).
Proof.
  intros Hc Hn. rewrite (node_shapes_default p Hc), list_lookup_imap, Hn.
  reflexivity.
Qed.

(** *** Override mode *)

(** C3: with a render-override function the component returns that
    function's result on the computed graph, in a fragment, and nothing of
    its own: no [<path>], no [<rect>], no [<Group>], hence no default style
    props either. *)
Theorem override_skips_default_shapes (p : Props)
    (render : SankeyGraph -> UserNode) :
  children p = Some render ->
  Sankey p = RFragment [RUser (render (computed_graph p))] /\
  elements (Sankey p) = [] /\
  groups (Sankey p) = 0 /\
  link_shapes (Sankey p) = [] /\
  node_shapes (Sankey p) = [].
Proof.
  intros Hc. rewrite (Sankey_override p render Hc). repeat split.
Qed.

(** *** Default mode: links *)

(** C4, amended: in default mode, when [linkProps] has no [strokeWidth], the
    [<path>] of a link whose computed width is undefined or a number other
    than NaN has the stroke width [Math.max(1, width ?? 0)], which is a
    number that is at least 1. *)
Theorem stroke_width_at_least_one (p : Props) (i : nat) (link : Link) :
  children p = None ->
  nullish (linkProps p) ∅ !! "strokeWidth" = None ->
  links (computed_graph p) !! i = Some link ->
  (forall w, width link = Some w -> isNaN w = false) ->
  exists props,
    link_shapes (Sankey p) !! i = Some (RElement "path" i props) /\
    props !! "strokeWidth" =
      Some (ANumber (Math_max one (nullish (width link) zero))) /\
    stroke_width_ge_1 props = true.
Proof.
  intros Hc Hsw Hl Hw. eexists. split; [apply (link_shape_lookup p i link Hc Hl)|].
  assert (Hattr :
    link_attributes (path_generator p) (nullish (linkProps p) ∅) link
      !! "strokeWidth" =
    Some (ANumber (Math_max one (nullish (width link) zero)))).
  { rewrite (link_attributes_defaults _ _ _ _ Hsw). reflexivity. }
  split; [exact Hattr|]. unfold stroke_width_ge_1. rewrite Hattr.
  apply Math_max_one_ge. destruct (width link) as [w|]; cbn.
  - apply Hw. reflexivity.
  - reflexivity.
Qed.

(** C5, amended: in default mode no link is left out: the rendering has one
    [<path>] per link of the computed graph, in order.  For a link whose path
    the generator does not resolve, the [<path>] has the empty description
    [d = ""]; otherwise [d] is the resolved path ([linkProps] being of its
    declared type). *)
Theorem unresolved_link_gets_empty_path (p : Props) (i : nat) (link : Link) :
  children p = None ->
  is_LinkProps (nullish (linkProps p) ∅) ->
  links (computed_graph p) !! i = Some link ->
  length (link_shapes (Sankey p)) = length (links (computed_graph p)) /\
  exists props,
    link_shapes (Sankey p) !! i = Some (RElement "path" i props) /\
    (path_apply (path_generator p) link = None ->
       props !! "d" = Some (AString "")) /\
    (forall s, path_apply (path_generator p) link = Some s ->
       props !! "d" = Some (AString s)).
Proof.
  intros Hc Hlp Hl. split.
  - rewrite (link_shapes_default p Hc). apply length_imap.
  - eexists. split; [apply (link_shape_lookup p i link Hc Hl)|].
    rewrite (link_attributes_defaults _ _ _ _ (LinkProps_no_d _ Hlp)).
    split.
    + intros ->. reflexivity.
    + intros s ->. reflexivity.
Qed.

(** *** Default mode: nodes *)

(** C6: in default mode a [<rect>] is rendered for a node exactly when its
    four bounds are defined, with [x = x0], [y = y0], [width = x1 - x0] and
    [height = y1 - y0] ([nodeProps] being of its declared type); a node with
    an undefined bound renders as [null], and every node has its position in
    the output. *)
Theorem rect_iff_all_bounds_defined (p : Props) (i : nat) (node : Node) :
  children p = None ->
  is_NodeProps (nullish (nodeProps p) ∅) ->
  nodes (computed_graph p) !! i = Some node ->
  length (node_shapes (Sankey p)) = length (nodes (computed_graph p)) /\
  ((exists props, node_shapes (Sankey p) !! i = Some (RElement "rect" i props))
   <-> is_Some (x0 node) /\ is_Some (x1 node) /\
       is_Some (y0 node) /\ is_Some (y1 node)) /\
  (forall vx0 vx1 vy0 vy1,
     x0 node = Some vx0 -> x1 node = Some vx1 ->
     y0 node = Some vy0 -> y1 node = Some vy1 ->
     exists props,
       node_shapes (Sankey p) !! i = Some (RElement "rect" i props) /\
       props !! "x" = Some (ANumber vx0) /\
       props !! "y" = Some (ANumber vy0) /\
       props !! "width" = Some (ANumber (number_sub vx1 vx0)) /\
       props !! "height" = Some (ANumber (number_sub vy1 vy0))) /\
  (x0 node = None \/ x1 node = None \/ y0 node = None \/ y1 node = None ->
     node_shapes (Sankey p) !! i = Some RNull).
Proof.
  intros Hc Hnp Hn.
  pose proof (node_shape_lookup p i node Hc Hn) as Hshape.
  rewrite node_element_bounds in Hshape.
  split; [|split; [|split]].
  - rewrite (node_shapes_default p Hc). apply length_imap.
  - rewrite Hshape. split.
    + intros [props Hp]. destruct (bounds node) as [[[[vx0 vx1] vy0] vy1]|] eqn:Hb;
        [|discriminate Hp].
      apply bounds_Some in Hb as (-> & -> & -> & ->). repeat split; eauto.
    + intros ([vx0 Hx0] & [vx1 Hx1] & [vy0 Hy0] & [vy1 Hy1]).
      assert (Hb : bounds node = Some (vx0, vx1, vy0, vy1))
        by (apply bounds_Some; auto).
      rewrite Hb. eauto.
  - intros vx0 vx1 vy0 vy1 Hx0 Hx1 Hy0 Hy1.
    assert (Hb : bounds node = Some (vx0, vx1, vy0, vy1))
      by (apply bounds_Some; auto).
    rewrite Hb in Hshape. eexists. split; [exact Hshape|].
    destruct (NodeProps_no_geometry _ Hnp) as (Hx & Hy & Hw & Hh).
    rewrite !node_attributes_defaults by assumption. repeat split.
  - intros Hb. apply bounds_None in Hb. rewrite Hb in Hshape. exact Hshape.
Qed.

(** *** Default mode: style props *)

(** C8: in default mode without style overrides ([linkProps] and [nodeProps]
    omitted or empty), the [<path>] of every link has exactly the attributes
    [d], [fill = "transparent"], [stroke = "#000"], [strokeWidth] and
    [strokeOpacity = 0.5], and the [<rect>] of every node with defined bounds
    has [fill = "#000"] next to its geometry and nothing else. *)
Theorem default_style_props (p : Props) :
  children p = None ->
  nullish (linkProps p) ∅ = ∅ ->
  nullish (nodeProps p) ∅ = ∅ ->
  (forall i link, links (computed_graph p) !! i = Some link ->
     link_shapes (Sankey p) !! i =
       Some (RElement "path" i
         {[ "d" := AString (nullish (path_apply (path_generator p) link) "");
            "fill" := AString "transparent";
            "stroke" := AString "#000";
            "strokeWidth" := ANumber (Math_max one (nullish (width link) zero));
            "strokeOpacity" := ANumber half ]})) /\
  (forall i node vx0 vx1 vy0 vy1,
     nodes (computed_graph p) !! i = Some node ->
     bounds node = Some (vx0, vx1, vy0, vy1) ->
     node_shapes (Sankey p) !! i =
       Some (RElement "rect" i
         {[ "fill" := AString "#000";
            "width" := ANumber (number_sub vx1 vx0);
            "height" := ANumber (number_sub vy1 vy0);
            "x" := ANumber vx0;
            "y" := ANumber vy0 ]})).
Proof.
  intros Hc Hlp Hnp. split.
  - intros i link Hl. rewrite (link_shape_lookup p i link Hc Hl), Hlp.
    unfold link_attributes. rewrite spread_empty. reflexivity.
  - intros i node vx0 vx1 vy0 vy1 Hn Hb.
    rewrite (node_shape_lookup p i node Hc Hn), Hnp, node_element_bounds, Hb.
    unfold node_attributes. rewrite spread_empty. reflexivity.
Qed.

(** C10: in default mode the caller's [linkProps] and [nodeProps] are spread
    over the defaults: an attribute present in [linkProps] has the caller's
    value on every [<path>], one present in [nodeProps] has it on every
    [<rect>].  A caller's [strokeWidth] thus replaces
    [Math.max(1, width ?? 0)], and when it is a number below 1 the stroke
    width of the [<path>] is below 1. *)
Theorem caller_props_replace_defaults (p : Props) (k : string) (v : AttrValue) :
  children p = None ->
  (nullish (linkProps p) ∅ !! k = Some v ->
   forall i link, links (computed_graph p) !! i = Some link ->
     exists props,
       link_shapes (Sankey p) !! i = Some (RElement "path" i props) /\
       props !! k = Some v /\
       (k = "strokeWidth" ->
        forall n, v = ANumber n -> number_le one n = false ->
        stroke_width_ge_1 props = false)) /\
  (nullish (nodeProps p) ∅ !! k = Some v ->
   forall i node, nodes (computed_graph p) !! i = Some node ->
     is_Some (bounds node) ->
     exists props,
       node_shapes (Sankey p) !! i = Some (RElement "rect" i props) /\
       props !! k = Some v).
Proof.
  intros Hc. split.
  - intros Hk i link Hl. eexists.
    split; [apply (link_shape_lookup p i link Hc Hl)|].
    pose proof (spread_override _
      (<["strokeOpacity" := ANumber half]>
       (<["strokeWidth" := ANumber (Math_max one (nullish (width link) zero))]>
        (<["stroke" := AString DEFAULT_COLOR]>
         (<["fill" := AString "transparent"]>
          (<["d" := AString (nullish (path_apply (path_generator p) link) "")]>
             ∅))))) k v Hk) as Hval.
    split; [exact Hval|].
    intros -> n -> Hn. unfold stroke_width_ge_1.
    unfold link_attributes. rewrite Hval. exact Hn.
  - intros Hk i node Hn [[[[vx0 vx1] vy0] vy1] Hb]. eexists.
    rewrite (node_shape_lookup p i node Hc Hn), node_element_bounds, Hb.
    split; [reflexivity|]. unfold node_attributes.
    apply spread_override. exact Hk.
Qed.

End Rendering.

(** * The component on the small diagram *)

Section OnFixture.

Import Fixture.

#[local] Existing Instance Recorder.
#[local] Existing Instance Paths.

Local Abbreviation graph_of p := (@computed_graph _ _ _ _ Recorder p).
Local Abbreviation paths_of p := (@path_generator _ _ _ _ Paths p).

Lemma styled_linkProps_typed : is_LinkProps (nullish (linkProps styled) ∅).
Proof. unfold is_LinkProps. compute_done. Defined.

Lemma styled_nodeProps_typed : is_NodeProps (nullish (nodeProps styled) ∅).
Proof. unfold is_NodeProps. compute_done. Defined.

(** The calls made for [tuned]: the zero iteration count is not among
    them. *)
Example setter_calls_tuned :
  setter_calls tuned =
    [Call_nodeWidth (num 12); Call_nodePadding (num 4);
     Call_size (num 100, num 100)].
Proof. reflexivity. Qed.

(** C4 as stated fails: with [linkProps = { strokeWidth: 0 }] the paths of the
    default rendering have stroke width 0. *)
Lemma stroke_width_below_one_counterexample :
  children styled = None /\ ~ stroke_widths_ge_1 (render styled).
Proof.
  split; [reflexivity|]. intros Hall.
  specialize (Hall 0
    (link_attributes (paths_of styled) (nullish (linkProps styled) ∅) wide)).
  assert (Hin : In ("path", 0,
      link_attributes (paths_of styled) (nullish (linkProps styled) ∅) wide)
      (elements (render styled))) by (left; reflexivity).
  apply Hall in Hin. vm_compute in Hin. discriminate Hin.
Qed.

(** C5 as stated fails: the third link has no resolvable path, and a [<path>]
    is rendered for it all the same. *)
Lemma unresolved_link_rendered_counterexample :
  children plain = None /\
  ~ omits_unresolved_links (paths_of plain) (graph_of plain) (render plain).
Proof.
  split; [reflexivity|]. intros Homit.
  apply (Homit 2 bare eq_refl eq_refl
           (link_attributes (paths_of plain) (nullish (linkProps plain) ∅) bare)).
  right; right; left. reflexivity.
Qed.

(** On [tuned], for the call that sets the node width. *)
Lemma setter_called_only_when_provided_witness :
  In width_call (setter_calls tuned) /\
  (supplied tuned width_call /\
   provided tuned (setter_of width_call) = true /\
   (forall o, provided tuned o = false -> setter_of width_call <> o) /\
   configure tuned = replay (setter_calls tuned) d3sankey).
Proof.
  assert (Hin : In width_call (setter_calls tuned)) by (left; reflexivity).
  split; [exact Hin|].
  exact (setter_called_only_when_provided (engine := Recorder)
           tuned width_call Hin).
Defined.

(** On [overridden]: the caller's node count, and no shape. *)
Lemma override_skips_default_shapes_witness :
  children overridden = Some (fun g => length (nodes g)) /\
  (render overridden = RFragment [RUser 2] /\
   elements (render overridden) = [] /\
   groups (render overridden) = 0 /\
   link_shapes (render overridden) = [] /\
   node_shapes (render overridden) = []).
Proof.
  split; [reflexivity|].
  exact (override_skips_default_shapes (engine := Recorder) (generator := Paths)
           overridden _ eq_refl).
Defined.

(** On [plain], for the link of width zero. *)
Lemma stroke_width_at_least_one_witness :
  (children plain = None /\
   nullish (linkProps plain) ∅ !! "strokeWidth" = None /\
   links (graph_of plain) !! 1 = Some flat /\
   (forall w, width flat = Some w -> isNaN w = false)) /\
  exists props,
    link_shapes (render plain) !! 1 = Some (RElement "path" 1 props) /\
    props !! "strokeWidth" = Some (ANumber (Math_max one (nullish (width flat) zero))) /\
    stroke_width_ge_1 props = true.
Proof.
  assert (Hw : forall w, width flat = Some w -> isNaN w = false).
  { intros w Hw. injection Hw as <-. reflexivity. }
  split; [repeat split; exact Hw|].
  exact (stroke_width_at_least_one (engine := Recorder) (generator := Paths)
           plain 1 flat eq_refl eq_refl eq_refl Hw).
Defined.

(** On [styled], for the link without a resolvable path. *)
Lemma unresolved_link_gets_empty_path_witness :
  (children styled = None /\
   is_LinkProps (nullish (linkProps styled) ∅) /\
   links (graph_of styled) !! 2 = Some bare) /\
  (length (link_shapes (render styled)) = length (links (graph_of styled)) /\
   exists props,
     link_shapes (render styled) !! 2 = Some (RElement "path" 2 props) /\
     (path_apply (paths_of styled) bare = None ->
        props !! "d" = Some (AString "")) /\
     (forall s, path_apply (paths_of styled) bare = Some s ->
        props !! "d" = Some (AString s))).
Proof.
  split; [repeat split; exact styled_linkProps_typed|].
  exact (unresolved_link_gets_empty_path (engine := Recorder) (generator := Paths)
           styled 2 bare eq_refl styled_linkProps_typed eq_refl).
Defined.

(** On [styled], for the placed node. *)
Lemma rect_iff_all_bounds_defined_witness :
  (children styled = None /\
   is_NodeProps (nullish (nodeProps styled) ∅) /\
   nodes (graph_of styled) !! 0 = Some placed) /\
  (length (node_shapes (render styled)) = length (nodes (graph_of styled)) /\
   ((exists props,
       node_shapes (render styled) !! 0 = Some (RElement "rect" 0 props))
    <-> is_Some (x0 placed) /\ is_Some (x1 placed) /\
        is_Some (y0 placed) /\ is_Some (y1 placed)) /\
   (forall vx0 vx1 vy0 vy1,
      x0 placed = Some vx0 -> x1 placed = Some vx1 ->
      y0 placed = Some vy0 -> y1 placed = Some vy1 ->
      exists props,
        node_shapes (render styled) !! 0 = Some (RElement "rect" 0 props) /\
        props !! "x" = Some (ANumber vx0) /\
        props !! "y" = Some (ANumber vy0) /\
        props !! "width" = Some (ANumber (number_sub vx1 vx0)) /\
        props !! "height" = Some (ANumber (number_sub vy1 vy0))) /\
   (x0 placed = None \/ x1 placed = None \/
    y0 placed = None \/ y1 placed = None ->
      node_shapes (render styled) !! 0 = Some RNull)).
Proof.
  split; [repeat split; exact styled_nodeProps_typed|].
  exact (rect_iff_all_bounds_defined (engine := Recorder) (generator := Paths)
           styled 0 placed eq_refl styled_nodeProps_typed eq_refl).
Defined.

(** On [plain], which has no style props. *)
Lemma default_style_props_witness :
  (children plain = None /\
   nullish (linkProps plain) ∅ = ∅ /\
   nullish (nodeProps plain) ∅ = ∅) /\
  ((forall i link, links (graph_of plain) !! i = Some link ->
      link_shapes (render plain) !! i =
        Some (RElement "path" i
          {[ "d" := AString (nullish (path_apply (paths_of plain) link) "");
             "fill" := AString "transparent";
             "stroke" := AString "#000";
             "strokeWidth" := ANumber (Math_max one (nullish (width link) zero));
             "strokeOpacity" := ANumber half ]})) /\
   (forall i node vx0 vx1 vy0 vy1,
      nodes (graph_of plain) !! i = Some node ->
      bounds node = Some (vx0, vx1, vy0, vy1) ->
      node_shapes (render plain) !! i =
        Some (RElement "rect" i
          {[ "fill" := AString "#000";
             "width" := ANumber (number_sub vx1 vx0);
             "height" := ANumber (number_sub vy1 vy0);
             "x" := ANumber vx0;
             "y" := ANumber vy0 ]}))).
Proof.
  split; [repeat split|].
  exact (default_style_props (engine := Recorder) (generator := Paths)
           plain eq_refl eq_refl eq_refl).
Defined.

(** On [tuned], with zero for each numeric option in turn. *)
Lemma falsy_option_same_as_omitted_witness :
  truthy zero = false /\
  ((setter_calls (with_nodeWidth (Some zero) tuned) =
      setter_calls (with_nodeWidth None tuned) /\
    render (with_nodeWidth (Some zero) tuned) =
      render (with_nodeWidth None tuned)) /\
   (setter_calls (with_nodePadding (Some zero) tuned) =
      setter_calls (with_nodePadding None tuned) /\
    render (with_nodePadding (Some zero) tuned) =
      render (with_nodePadding None tuned)) /\
   (setter_calls (with_iterations (Some zero) tuned) =
      setter_calls (with_iterations None tuned) /\
    render (with_iterations (Some zero) tuned) =
      render (with_iterations None tuned)) /\
   (setter_calls (omit_falsy tuned) = setter_calls tuned /\
    configure (omit_falsy tuned) = configure tuned /\
    render (omit_falsy tuned) = render tuned)).
Proof.
  split; [reflexivity|].
  exact (falsy_option_same_as_omitted (engine := Recorder) (generator := Paths)
           tuned zero eq_refl).
Defined.

(** On [styled], for the stroke width of zero. *)
Lemma caller_props_replace_defaults_witness :
  children styled = None /\
  ((nullish (linkProps styled) ∅ !! "strokeWidth" = Some (ANumber zero) ->
    forall i link, links (graph_of styled) !! i = Some link ->
      exists props,
        link_shapes (render styled) !! i = Some (RElement "path" i props) /\
        props !! "strokeWidth" = Some (ANumber zero) /\
        ("strokeWidth" = "strokeWidth" ->
         forall n, ANumber zero = ANumber n -> number_le one n = false ->
         stroke_width_ge_1 props = false)) /\
   (nullish (nodeProps styled) ∅ !! "strokeWidth" = Some (ANumber zero) ->
    forall i node, nodes (graph_of styled) !! i = Some node ->
      is_Some (bounds node) ->
      exists props,
        node_shapes (render styled) !! i = Some (RElement "rect" i props) /\
        props !! "strokeWidth" = Some (ANumber zero))).
Proof.
  split; [reflexivity|].
  exact (caller_props_replace_defaults (engine := Recorder) (generator := Paths)
           styled "strokeWidth" (ANumber zero) eq_refl).
Defined.

(** On [styled] the caller's zero is the stroke width of the first path, and
    the caller's red the fill of the first rect. *)
Example styled_shapes :
  (exists props,
     link_shapes (render styled) !! 0 = Some (RElement "path" 0 props) /\
     props !! "strokeWidth" = Some (ANumber zero) /\
     props !! "stroke" = Some (AString "#000")) /\
  (exists props,
     node_shapes (render styled) !! 0 = Some (RElement "rect" 0 props) /\
     props !! "fill" = Some (AString "red") /\
     props !! "x" = Some (ANumber zero)) /\
  node_shapes (render styled) !! 1 = Some RNull.
Proof. repeat split; eexists; repeat split. Qed.

End OnFixture.

(** * Further properties of the configuration *)

Section MoreSetterCalls.

Context {NodeDatum LinkDatum UserNode : Type}.

Local Abbreviation Props := (@SankeyProps NodeDatum LinkDatum UserNode).
Local Abbreviation Call := (@SetterCall NodeDatum LinkDatum).

Lemma guarded_call_passes {A : Type} `{ToBoolean A}
    (o : option A) (call : A -> Call) (v : A) :
  passes o v -> guarded_call o call = [call v].
Proof.
  intros [-> Hv]. unfold guarded_call, when. rewrite Hv. reflexivity.
Qed.

(** One guarded line contributes at most its own option, in place. *)
Lemma guarded_call_sublist {A : Type} `{ToBoolean A}
    (o : option A) (call : A -> Call) (name : OptionName)
    (rest : list Call) (names : list OptionName) :
  (forall v, setter_of (call v) = name) ->
  sublist (map setter_of rest) names ->
  sublist (map setter_of (guarded_call o call ++ rest)) (name :: names).
Proof.
  intros Hname Hrest. unfold guarded_call, when. destruct o as [v|].
  - destruct (truthy v); cbn.
    + rewrite Hname. apply sublist_skip, Hrest.
    + apply sublist_cons, Hrest.
  - cbn. apply sublist_cons, Hrest.
Qed.

Lemma setter_order_NoDup : NoDup setter_order.
Proof.
  unfold setter_order.
  repeat (apply NoDup_cons_2;
          [rewrite ?elem_of_cons, elem_of_nil; intuition discriminate|]).
  apply NoDup_nil_2.
Qed.

(** X1: an option supplied with a truthy value is forwarded: its setter is
    called with exactly that value.  With C1 this makes the calls of the
    component exactly the truthy options. *)
Theorem supplied_option_is_forwarded (p : Props) (c : Call) :
  supplied p c -> In c (setter_calls p).
Proof.
  intros Hs. rewrite setter_calls_unfold, !in_app_iff.
  destruct c; cbn in Hs; rewrite (guarded_call_passes _ _ _ Hs); cbn; tauto.
Qed.

(** X2: the setters are called in the order of the source lines (node id,
    node width, node padding, node alignment, extent, size, iterations, node
    sort, link sort), each at most once. *)
Theorem setter_calls_in_order (p : Props) :
  sublist (map setter_of (setter_calls p)) setter_order /\
  NoDup (map setter_of (setter_calls p)) /\
  length (setter_calls p) <= 9.
Proof.
  assert (Hsub : sublist (map setter_of (setter_calls p)) setter_order).
  { rewrite setter_calls_unfold. unfold setter_order.
    repeat (apply guarded_call_sublist; [reflexivity|]).
    rewrite <- (app_nil_r (guarded_call (linkSort p) Call_linkSort)).
    apply guarded_call_sublist; [reflexivity | constructor]. }
  split; [exact Hsub|]. split.
  - exact (sublist_NoDup _ _ setter_order_NoDup Hsub).
  - apply sublist_length in Hsub. rewrite length_map in Hsub. exact Hsub.
Qed.

Section AnyEngine.

Context {E : Type} {engine : @SankeyLayout NodeDatum LinkDatum E}.

(** X3: when both an extent and a size are supplied, the size setter is
    called right after the extent setter, so on any engine the size is set on
    top of the extent. *)
Theorem size_set_after_extent (p : Props) (e : Extent) (s : Size) :
  extent p = Some e -> size p = Some s ->
  exists before after : list Call,
    setter_calls p = before ++ Call_extent e :: Call_size s :: after /\
    (forall c, In c before ->
       In (setter_of c) [OptNodeId; OptNodeWidth; OptNodePadding; OptNodeAlign]) /\
    (forall c, In c after ->
       In (setter_of c) [OptIterations; OptNodeSort; OptLinkSort]) /\
    configure p =
      replay after (sankey_size s (sankey_extent e (replay before d3sankey))).
Proof.
  intros He Hs.
  exists (guarded_call (nodeId p) Call_nodeId ++
          guarded_call (nodeWidth p) Call_nodeWidth ++
          guarded_call (nodePadding p) Call_nodePadding ++
          guarded_call (nodeAlign p) Call_nodeAlign),
         (guarded_call (iterations p) Call_iterations ++
          guarded_call (nodeSort p) Call_nodeSort ++
          guarded_call (linkSort p) Call_linkSort).
  assert (Hcalls : setter_calls p =
    (guarded_call (nodeId p) Call_nodeId ++
     guarded_call (nodeWidth p) Call_nodeWidth ++
     guarded_call (nodePadding p) Call_nodePadding ++
     guarded_call (nodeAlign p) Call_nodeAlign) ++
    Call_extent e :: Call_size s ::
    (guarded_call (iterations p) Call_iterations ++
     guarded_call (nodeSort p) Call_nodeSort ++
     guarded_call (linkSort p) Call_linkSort)).
  { rewrite setter_calls_unfold, He, Hs, <- !app_assoc. reflexivity. }
  split; [exact Hcalls|]. split; [|split].
  - intros c. rewrite !in_app_iff.
    intros Hin; repeat destruct Hin as [Hin | Hin];
      apply in_guarded_call in Hin as (v & -> & _); cbn; tauto.
  - intros c. rewrite !in_app_iff.
    intros Hin; repeat destruct Hin as [Hin | Hin];
      apply in_guarded_call in Hin as (v & -> & _); cbn; tauto.
  - rewrite configure_replay, Hcalls, replay_app. reflexivity.
Qed.

(** X4: when no option is supplied with a truthy value, the engine is used
    as [d3sankey()] returns it: no setter is called and the layout is the
    engine's default layout of the input graph. *)
Theorem no_option_leaves_engine_fresh (p : Props) :
  (forall o, provided (omit_falsy p) o = false) ->
  setter_calls p = [] /\
  configure p = d3sankey /\
  computed_graph p = sankey_apply d3sankey (root p).
Proof.
  intros Hnone.
  assert (Hcalls : setter_calls p = []).
  { assert (Hof : setter_calls (omit_falsy p) = setter_calls p)
      by apply (@configure_omit_falsy _ _ _ _ Recorder).
    rewrite <- Hof, setter_calls_unfold.
    pose proof (Hnone OptNodeId) as H1. pose proof (Hnone OptNodeWidth) as H2.
    pose proof (Hnone OptNodePadding) as H3. pose proof (Hnone OptNodeAlign) as H4.
    pose proof (Hnone OptExtent) as H5. pose proof (Hnone OptSize) as H6.
    pose proof (Hnone OptIterations) as H7. pose proof (Hnone OptNodeSort) as H8.
    pose proof (Hnone OptLinkSort) as H9.
    cbn in H1, H2, H3, H4, H5, H6, H7, H8, H9. cbn -[guarded_call keep_truthy].
    destruct (keep_truthy (nodeId p)); [discriminate H1|].
    destruct (keep_truthy (nodeWidth p)); [discriminate H2|].
    destruct (keep_truthy (nodePadding p)); [discriminate H3|].
    destruct (keep_truthy (nodeAlign p)); [discriminate H4|].
    destruct (keep_truthy (extent p)); [discriminate H5|].
    destruct (keep_truthy (size p)); [discriminate H6|].
    destruct (keep_truthy (iterations p)); [discriminate H7|].
    destruct (keep_truthy (nodeSort p)); [discriminate H8|].
    destruct (keep_truthy (linkSort p)); [discriminate H9|].
    reflexivity. }
  assert (Hc : configure p = d3sankey).
  { rewrite configure_replay, Hcalls. reflexivity. }
  split; [exact Hcalls|]. split; [exact Hc|].
  unfold computed_graph. rewrite Hc. reflexivity.
Qed.

End AnyEngine.
End MoreSetterCalls.

(** * Further properties of the rendering *)

(** ** Stroke widths *)

Lemma Math_max_one_wide (w : number) :
  SFltb one w = true -> Math_max one w = w.
Proof.
  unfold SFltb, Math_max.
  destruct (SFcompare one w) as [[| |]|]; intros Hlt; try discriminate Hlt.
  reflexivity.
Qed.

Lemma Math_max_one_thin (w : number) :
  isNaN w = false -> SFltb one w = false -> Math_max one w = one.
Proof.
  unfold SFltb, Math_max. intros Hnan.
  destruct (SFcompare one w) as [[| |]|] eqn:Hcmp; intros Hlt;
    try discriminate Hlt; try reflexivity.
  destruct w; cbn in Hcmp, Hnan; discriminate.
Qed.

(** ** Maps that agree away from one key *)

Lemma insert_agree (m1 m2 : PropsObject) (a k : string) (x : AttrValue) :
  m1 !! k = m2 !! k -> <[a := x]> m1 !! k = <[a := x]> m2 !! k.
Proof.
  intros Hm. destruct (decide (a = k)) as [->|Hne].
  - rewrite !lookup_insert_eq. reflexivity.
  - rewrite !lookup_insert_ne by exact Hne. exact Hm.
Qed.

Lemma spread_agree (source m1 m2 : PropsObject) (k : string) :
  m1 !! k = m2 !! k -> spread source m1 !! k = spread source m2 !! k.
Proof. intros Hm. unfold spread. rewrite !lookup_union, Hm. reflexivity. Qed.

Section MoreRendering.

Context {NodeDatum LinkDatum UserNode E P : Type}.
Context {engine : @SankeyLayout NodeDatum LinkDatum E}.
Context {generator : @SankeyLinkPath LinkDatum P}.

Local Abbreviation Props := (@SankeyProps NodeDatum LinkDatum UserNode).
Local Abbreviation Node := (@SankeyNode NodeDatum).
Local Abbreviation Link := (@SankeyLink LinkDatum).
Local Abbreviation Tree := (@ReactNode UserNode).

Lemma same_layout_graph (p q : Props) :
  same_layout_input p q -> computed_graph p = computed_graph q.
Proof.
  intros (Hroot & Hid & Hw & Hpad & Hal & Hex & Hsz & Hit & Hns & Hls).
  unfold computed_graph, configure.
  rewrite Hroot, Hid, Hw, Hpad, Hal, Hex, Hsz, Hit, Hns, Hls. reflexivity.
Qed.

(** The path of a link is the same under two generators up to [d]. *)
Lemma link_attributes_agree (path1 path2 : P) (lp : PropsObject)
    (link : Link) (k : string) :
  k <> "d" ->
  link_attributes path1 lp link !! k = link_attributes path2 lp link !! k.
Proof.
  intros Hk. unfold link_attributes.
  apply spread_agree. do 4 apply insert_agree.
  rewrite !lookup_insert_ne by (intros Heq; apply Hk; symmetry; exact Heq).
  reflexivity.
Qed.

(** *** Counting shapes *)

Lemma elements_imap {A : Type} (g : nat -> A -> Tree) (weight : A -> nat) :
  forall (l : list A),
  (forall i x, length (elements (g i x)) = weight x) ->
  length (flat_map elements (imap g l)) = list_sum (map weight l).
Proof.
  intros l. revert g. induction l as [|x l IH]; intros g Hg; [reflexivity|].
  rewrite imap_cons. cbn [flat_map map].
  change (list_sum (weight x :: map weight l))
    with (weight x + list_sum (map weight l)).
  rewrite length_app, Hg. f_equal. apply IH. intros i y. apply Hg.
Qed.

Lemma groups_imap {A : Type} (g : nat -> A -> Tree) :
  forall (l : list A),
  (forall i x, groups (g i x) = 0) ->
  list_sum (map groups (imap g l)) = 0.
Proof.
  intros l. revert g. induction l as [|x l IH]; intros g Hg; [reflexivity|].
  rewrite imap_cons. cbn [map].
  change (list_sum (groups (g 0 x) :: map groups (imap (g ∘ S) l)))
    with (groups (g 0 x) + list_sum (map groups (imap (g ∘ S) l))).
  rewrite Hg. cbn [Nat.add]. apply IH. intros i y. apply Hg.
Qed.

Lemma list_sum_ones {A : Type} (l : list A) :
  list_sum (map (fun _ => 1) l) = length l.
Proof.
  induction l as [|x l IH]; [reflexivity|]. cbn [map length].
  change (list_sum (1 :: map (fun _ => 1) l))
    with (1 + list_sum (map (fun _ : A => 1) l)).
  rewrite IH. reflexivity.
Qed.

Lemma list_sum_filter {A : Type} (f : A -> bool) (l : list A) :
  list_sum (map (fun x => if f x then 1 else 0) l) = length (List.filter f l).
Proof.
  induction l as [|x l IH]; [reflexivity|]. cbn [map List.filter].
  change (list_sum ((if f x then 1 else 0) ::
                    map (fun x => if f x then 1 else 0) l))
    with ((if f x then 1 else 0) +
          list_sum (map (fun x => if f x then 1 else 0) l)).
  rewrite IH. destruct (f x); reflexivity.
Qed.

Lemma elements_link_element (path : P) (lp : PropsObject) (i : nat) (link : Link) :
  length (elements (@link_element LinkDatum UserNode P _ path lp i link)) = 1.
Proof. reflexivity. Qed.

Lemma groups_link_element (path : P) (lp : PropsObject) (i : nat) (link : Link) :
  groups (@link_element LinkDatum UserNode P _ path lp i link) = 0.
Proof. reflexivity. Qed.

Lemma elements_node_element (np : PropsObject) (i : nat) (node : Node) :
  length (elements (@node_element NodeDatum UserNode np i node)) =
    if is_placed node then 1 else 0.
Proof.
  rewrite node_element_bounds. unfold is_placed.
  destruct (bounds node) as [[[[vx0 vx1] vy0] vy1]|]; reflexivity.
Qed.

Lemma groups_node_element (np : PropsObject) (i : nat) (node : Node) :
  groups (@node_element NodeDatum UserNode np i node) = 0.
Proof.
  rewrite node_element_bounds.
  destruct (bounds node) as [[[[vx0 vx1] vy0] vy1]|]; reflexivity.
Qed.

(** X5: in override mode the style props and the point accessors are
    ignored: two invocations with the same render function, the same graph
    and the same layout options render the same tree, whatever their
    [nodeProps], [linkProps], [sourceAccessor] and [targetAccessor]. *)
Theorem override_ignores_style_and_accessors (p q : Props)
    (render : SankeyGraph -> UserNode) :
  same_layout_input p q ->
  children p = Some render -> children q = Some render ->
  Sankey p = Sankey q.
Proof.
  intros Hsame Hp Hq.
  rewrite (Sankey_override p render Hp), (Sankey_override q render Hq).
  rewrite (same_layout_graph p q Hsame). reflexivity.
Qed.

(** X6: in default mode the point accessors reach nothing but the [d] of the
    paths: two invocations that differ in [sourceAccessor] and
    [targetAccessor] only have the same computed graph, the same node shapes
    and, link by link, paths that agree on every attribute other than [d]. *)
Theorem accessors_only_reach_d (p q : Props) :
  same_layout_input p q ->
  children p = None -> children q = None ->
  nodeProps p = nodeProps q -> linkProps p = linkProps q ->
  computed_graph p = computed_graph q /\
  node_shapes (Sankey p) = node_shapes (Sankey q) /\
  (forall i link, links (computed_graph p) !! i = Some link ->
     exists props1 props2,
       link_shapes (Sankey p) !! i = Some (RElement "path" i props1) /\
       link_shapes (Sankey q) !! i = Some (RElement "path" i props2) /\
       (forall k, k <> "d" -> props1 !! k = props2 !! k)).
Proof.
  intros Hsame Hp Hq Hnp Hlp.
  pose proof (same_layout_graph p q Hsame) as Hg.
  split; [exact Hg|]. split.
  - rewrite (node_shapes_default p Hp), (node_shapes_default q Hq), Hg, Hnp.
    reflexivity.
  - intros i link Hl. do 2 eexists.
    split; [apply (link_shape_lookup p i link Hp Hl)|].
    split; [apply (link_shape_lookup q i link Hq); rewrite <- Hg; exact Hl|].
    intros k Hk. rewrite Hlp. apply link_attributes_agree. exact Hk.
Qed.

Lemma tags_imap {A : Type} (g : nat -> A -> Tree) (tags : A -> list string) :
  forall (l : list A),
  (forall i x, map entry_tag (elements (g i x)) = tags x) ->
  map entry_tag (flat_map elements (imap g l)) = flat_map tags l.
Proof.
  intros l. revert g. induction l as [|x l IH]; intros g Hg; [reflexivity|].
  rewrite imap_cons. cbn [flat_map]. rewrite map_app, Hg. f_equal.
  apply IH. intros i y. apply Hg.
Qed.

Lemma flat_map_one {A B : Type} (b : B) (l : list A) :
  flat_map (fun _ => [b]) l = replicate (length l) b.
Proof. induction l as [|x l IH]; [reflexivity|]. cbn. rewrite IH. reflexivity. Qed.

Lemma flat_map_filter {A B : Type} (f : A -> bool) (b : B) (l : list A) :
  flat_map (fun x => if f x then [b] else []) l =
    replicate (length (List.filter f l)) b.
Proof.
  induction l as [|x l IH]; [reflexivity|]. cbn [flat_map List.filter].
  rewrite IH. destruct (f x); reflexivity.
Qed.

Lemma tags_link_element (path : P) (lp : PropsObject) (i : nat) (link : Link) :
  map entry_tag (elements (@link_element LinkDatum UserNode P _ path lp i link)) =
    ["path"].
Proof. reflexivity. Qed.

Lemma tags_node_element (np : PropsObject) (i : nat) (node : Node) :
  map entry_tag (elements (@node_element NodeDatum UserNode np i node)) =
    if is_placed node then ["rect"] else [].
Proof.
  rewrite node_element_bounds. unfold is_placed.
  destruct (bounds node) as [[[[vx0 vx1] vy0] vy1]|]; reflexivity.
Qed.

(** X7: the default rendering always is a fragment of two groups, also for
    an empty graph.  The first group is the links': its children are the
    paths, one per link and in the order of the links.  The second is the
    nodes': its children are, node by node, a rect or [null].  In document
    order the elements are the paths of all links followed by the rects of
    the nodes with all four bounds, and nothing else. *)
Theorem default_rendering_shape (p : Props) :
  children p = None ->
  Sankey p = RFragment [RGroup (link_shapes (Sankey p));
                        RGroup (node_shapes (Sankey p))] /\
  groups (Sankey p) = 2 /\
  (length (link_shapes (Sankey p)) = length (links (computed_graph p)) /\
   forall i link, links (computed_graph p) !! i = Some link ->
     exists props,
       link_shapes (Sankey p) !! i = Some (RElement "path" i props)) /\
  (length (node_shapes (Sankey p)) = length (nodes (computed_graph p)) /\
   forall i node, nodes (computed_graph p) !! i = Some node ->
     if is_placed node
     then exists props,
            node_shapes (Sankey p) !! i = Some (RElement "rect" i props)
     else node_shapes (Sankey p) !! i = Some RNull) /\
  map entry_tag (elements (Sankey p)) =
    replicate (length (links (computed_graph p))) "path" ++
    replicate (length (List.filter is_placed (nodes (computed_graph p)))) "rect" /\
  length (elements (Sankey p)) =
    length (links (computed_graph p)) +
    length (List.filter is_placed (nodes (computed_graph p))) /\
  (links (computed_graph p) = [] -> nodes (computed_graph p) = [] ->
     Sankey p = RFragment [RGroup []; RGroup []]).
Proof.
  intros Hc.
  assert (Htags : map entry_tag (elements (Sankey p)) =
    replicate (length (links (computed_graph p))) "path" ++
    replicate (length (List.filter is_placed (nodes (computed_graph p)))) "rect").
  { rewrite (Sankey_default p Hc). unfold default_shapes.
    cbn [elements flat_map]. rewrite app_nil_r, map_app.
    rewrite (tags_imap _ (fun _ => ["path"]) _ (tags_link_element _ _)),
      flat_map_one.
    rewrite (tags_imap _ _ _ (tags_node_element _)), flat_map_filter.
    reflexivity. }
  split; [rewrite (Sankey_default p Hc); reflexivity|].
  split; [|split; [|split; [|split; [exact Htags|split]]]].
  - rewrite (Sankey_default p Hc). unfold default_shapes.
    cbn [groups map list_sum].
    rewrite (groups_imap _ _ (groups_link_element _ _)).
    rewrite (groups_imap _ _ (groups_node_element _)). reflexivity.
  - split.
    + rewrite (link_shapes_default p Hc). apply length_imap.
    + intros i link Hl. eexists. apply (link_shape_lookup p i link Hc Hl).
  - split.
    + rewrite (node_shapes_default p Hc). apply length_imap.
    + intros i node Hn. rewrite (node_shape_lookup p i node Hc Hn).
      rewrite node_element_bounds. unfold is_placed.
      destruct (bounds node) as [[[[vx0 vx1] vy0] vy1]|]; eauto.
  - rewrite <- (length_map entry_tag), Htags, length_app, !length_replicate.
    reflexivity.
  - intros Hl Hn. rewrite (Sankey_default p Hc). unfold default_shapes.
    rewrite Hl, Hn. reflexivity.
Qed.

Lemma LinkProps_no_key (m : PropsObject) : is_LinkProps m -> m !! "key" = None.
Proof.
  intros Hm. apply not_elem_of_dom. intros Hd. apply Hm in Hd.
  revert Hd. unfold LinkProps_keys.
  rewrite !elem_of_union, !elem_of_singleton. intuition discriminate.
Qed.

Lemma NodeProps_no_key (m : PropsObject) : is_NodeProps m -> m !! "key" = None.
Proof.
  intros Hm. apply not_elem_of_dom. intros Hd. apply Hm in Hd.
  revert Hd. unfold NodeProps_keys.
  rewrite !elem_of_union, !elem_of_singleton. intuition discriminate.
Qed.

(** The key of a path: that of [linkProps] if it has one, else the index. *)
Lemma element_key_link_element (path : P) (lp : PropsObject)
    (i : nat) (link : Link) :
  element_key (@link_element LinkDatum UserNode P _ path lp i link) =
    Some (match lp !! "key" with
          | Some v => PropsKey v
          | None => IndexKey i
          end).
Proof.
  unfold link_element, element_key. destruct (lp !! "key") as [v|] eqn:Hk.
  - unfold link_attributes. rewrite (spread_override _ _ _ _ Hk). reflexivity.
  - rewrite (link_attributes_defaults _ _ _ _ Hk). reflexivity.
Qed.

(** The key of a rect, and none for a skipped node. *)
Lemma element_key_node_element (np : PropsObject) (i : nat) (node : Node) :
  element_key (@node_element NodeDatum UserNode np i node) =
    if is_placed node
    then Some (match np !! "key" with
               | Some v => PropsKey v
               | None => IndexKey i
               end)
    else None.
Proof.
  rewrite node_element_bounds. unfold is_placed.
  destruct (bounds node) as [[[[vx0 vx1] vy0] vy1]|]; [|reflexivity].
  unfold element_key. destruct (np !! "key") as [v|] eqn:Hk.
  - unfold node_attributes. rewrite (spread_override _ _ _ _ Hk). reflexivity.
  - rewrite (node_attributes_defaults _ _ _ _ _ _ Hk). reflexivity.
Qed.

(** X8: with [linkProps] and [nodeProps] of their declared types (which have
    no [key]), the key of each default shape is the index of its link or node
    in the computed graph: skipped nodes do not shift the keys of later
    rects, and no two shapes of a group have the same key. *)
Theorem shape_key_is_index (p : Props) :
  children p = None ->
  is_LinkProps (nullish (linkProps p) ∅) ->
  is_NodeProps (nullish (nodeProps p) ∅) ->
  (forall i link, links (computed_graph p) !! i = Some link ->
     exists shape,
       link_shapes (Sankey p) !! i = Some shape /\
       element_key shape = Some (IndexKey i)) /\
  (forall i node, nodes (computed_graph p) !! i = Some node ->
     is_placed node = true ->
     exists shape,
       node_shapes (Sankey p) !! i = Some shape /\
       element_key shape = Some (IndexKey i)) /\
  (forall shapes, shapes = link_shapes (Sankey p) \/
                  shapes = node_shapes (Sankey p) ->
   forall i j shape1 shape2 key,
     shapes !! i = Some shape1 -> shapes !! j = Some shape2 ->
     element_key shape1 = Some key -> element_key shape2 = Some key ->
     i = j).
Proof.
  intros Hc Hlp Hnp.
  pose proof (LinkProps_no_key _ Hlp) as Hlk.
  pose proof (NodeProps_no_key _ Hnp) as Hnk.
  assert (Hlinks : forall i shape key,
     link_shapes (Sankey p) !! i = Some shape ->
     element_key shape = Some key -> key = IndexKey i).
  { intros i shape key. rewrite (link_shapes_default p Hc), list_lookup_imap.
    destruct (links (computed_graph p) !! i) as [link|]; [|discriminate].
    cbn [fmap option_fmap option_map]. intros Heq. injection Heq as <-.
    rewrite element_key_link_element, Hlk. intros Heq. injection Heq as <-.
    reflexivity. }
  assert (Hnodes : forall i shape key,
     node_shapes (Sankey p) !! i = Some shape ->
     element_key shape = Some key -> key = IndexKey i).
  { intros i shape key. rewrite (node_shapes_default p Hc), list_lookup_imap.
    destruct (nodes (computed_graph p) !! i) as [node|]; [|discriminate].
    cbn [fmap option_fmap option_map]. intros Heq. injection Heq as <-.
    rewrite element_key_node_element, Hnk.
    destruct (is_placed node); [|discriminate].
    intros Heq. injection Heq as <-. reflexivity. }
  split; [|split].
  - intros i link Hl. eexists.
    split; [apply (link_shape_lookup p i link Hc Hl)|].
    pose proof (element_key_link_element (path_generator p)
                  (nullish (linkProps p) ∅) i link) as Hkey.
    rewrite Hlk in Hkey. exact Hkey.
  - intros i node Hn Hpl. eexists.
    split; [apply (node_shape_lookup p i node Hc Hn)|].
    rewrite element_key_node_element, Hnk, Hpl. reflexivity.
  - intros shapes [-> | ->] i j shape1 shape2 key Hi Hj Hk1 Hk2.
    + pose proof (Hlinks i shape1 key Hi Hk1) as H1.
      pose proof (Hlinks j shape2 key Hj Hk2) as H2.
      rewrite H1 in H2. injection H2 as ->. reflexivity.
    + pose proof (Hnodes i shape1 key Hi Hk1) as H1.
      pose proof (Hnodes j shape2 key Hj Hk2) as H2.
      rewrite H1 in H2. injection H2 as ->. reflexivity.
Qed.

(** X12: the style props come after [key={i}], so a [key] that [linkProps]
    carries replaces the index as the key of every path, and one that
    [nodeProps] carries replaces it on every rect: all the shapes of the
    group then have the same key. *)
Theorem props_key_replaces_index (p : Props) (v : AttrValue) :
  children p = None ->
  (nullish (linkProps p) ∅ !! "key" = Some v ->
   forall i link, links (computed_graph p) !! i = Some link ->
     exists shape,
       link_shapes (Sankey p) !! i = Some shape /\
       element_key shape = Some (PropsKey v)) /\
  (nullish (nodeProps p) ∅ !! "key" = Some v ->
   forall i node, nodes (computed_graph p) !! i = Some node ->
     is_placed node = true ->
     exists shape,
       node_shapes (Sankey p) !! i = Some shape /\
       element_key shape = Some (PropsKey v)).
Proof.
  intros Hc. split.
  - intros Hk i link Hl. eexists.
    split; [apply (link_shape_lookup p i link Hc Hl)|].
    pose proof (element_key_link_element (path_generator p)
                  (nullish (linkProps p) ∅) i link) as Hkey.
    rewrite Hk in Hkey. exact Hkey.
  - intros Hk i node Hn Hpl. eexists.
    split; [apply (node_shape_lookup p i node Hc Hn)|].
    rewrite element_key_node_element, Hk, Hpl. reflexivity.
Qed.

(** X9: without a [strokeWidth] in [linkProps], the stroke width of a path
    is the computed width of its link when that is greater than 1, and exactly
    1 when the width is undefined or a number not greater than 1; a NaN width
    passes through as NaN, which is not at least 1. *)
Theorem stroke_width_values (p : Props) (i : nat) (link : Link) :
  children p = None ->
  nullish (linkProps p) ∅ !! "strokeWidth" = None ->
  links (computed_graph p) !! i = Some link ->
  exists props,
    link_shapes (Sankey p) !! i = Some (RElement "path" i props) /\
    (width link = None -> props !! "strokeWidth" = Some (ANumber one)) /\
    (forall w, width link = Some w -> SFltb one w = true ->
       props !! "strokeWidth" = Some (ANumber w)) /\
    (forall w, width link = Some w -> isNaN w = false -> SFltb one w = false ->
       props !! "strokeWidth" = Some (ANumber one)) /\
    (width link = Some S754_nan ->
       props !! "strokeWidth" = Some (ANumber S754_nan) /\
       stroke_width_ge_1 props = false).
Proof.
  intros Hc Hsw Hl. eexists.
  split; [apply (link_shape_lookup p i link Hc Hl)|].
  assert (Hattr :
    link_attributes (path_generator p) (nullish (linkProps p) ∅) link
      !! "strokeWidth" =
    Some (ANumber (Math_max one (nullish (width link) zero)))).
  { rewrite (link_attributes_defaults _ _ _ _ Hsw). reflexivity. }
  unfold stroke_width_ge_1. rewrite Hattr. split; [|split; [|split]].
  - intros ->. reflexivity.
  - intros w -> Hw. cbn [nullish]. rewrite (Math_max_one_wide w Hw). reflexivity.
  - intros w -> Hnan Hw. cbn [nullish].
    rewrite (Math_max_one_thin w Hnan Hw). reflexivity.
  - intros ->. split; reflexivity.
Qed.

(** X10: the style props override attribute by attribute.  With [linkProps]
    and [nodeProps] of their declared types, the attributes of a path are the
    five the component sets together with those of [linkProps], and every
    attribute that [linkProps] does not contain has its default; likewise for
    a rect and [nodeProps]. *)
Theorem unsupplied_attributes_keep_defaults (p : Props) :
  children p = None ->
  is_LinkProps (nullish (linkProps p) ∅) ->
  is_NodeProps (nullish (nodeProps p) ∅) ->
  (forall i link, links (computed_graph p) !! i = Some link ->
     exists props,
       link_shapes (Sankey p) !! i = Some (RElement "path" i props) /\
       dom props = path_default_keys ∪ dom (nullish (linkProps p) ∅) /\
       props !! "key" = None /\
       (forall k, nullish (linkProps p) ∅ !! k = None ->
          props !! k =
            ({[ "d" := AString (nullish (path_apply (path_generator p) link) "");
                "fill" := AString "transparent";
                "stroke" := AString "#000";
                "strokeWidth" :=
                  ANumber (Math_max one (nullish (width link) zero));
                "strokeOpacity" := ANumber half ]} : PropsObject) !! k)) /\
  (forall i node vx0 vx1 vy0 vy1,
     nodes (computed_graph p) !! i = Some node ->
     bounds node = Some (vx0, vx1, vy0, vy1) ->
     exists props,
       node_shapes (Sankey p) !! i = Some (RElement "rect" i props) /\
       dom props = rect_default_keys ∪ dom (nullish (nodeProps p) ∅) /\
       props !! "key" = None /\
       (forall k, nullish (nodeProps p) ∅ !! k = None ->
          props !! k =
            ({[ "fill" := AString "#000";
                "width" := ANumber (number_sub vx1 vx0);
                "height" := ANumber (number_sub vy1 vy0);
                "x" := ANumber vx0;
                "y" := ANumber vy0 ]} : PropsObject) !! k)).
Proof.
  intros Hc Hlp Hnp.
  pose proof (LinkProps_no_key _ Hlp) as Hlk.
  pose proof (NodeProps_no_key _ Hnp) as Hnk. split.
  - intros i link Hl. eexists.
    split; [apply (link_shape_lookup p i link Hc Hl)|]. split.
    + unfold link_attributes, spread, path_default_keys.
      rewrite dom_union_L, !dom_insert_L, dom_empty_L.
      apply set_eq. intros k.
      rewrite !elem_of_union, !elem_of_singleton, elem_of_empty. tauto.
    + split; [rewrite (link_attributes_defaults _ _ _ _ Hlk); reflexivity|].
      intros k Hk. apply link_attributes_defaults. exact Hk.
  - intros i node vx0 vx1 vy0 vy1 Hn Hb. eexists.
    rewrite (node_shape_lookup p i node Hc Hn), node_element_bounds, Hb.
    split; [reflexivity|]. split.
    + unfold node_attributes, spread, rect_default_keys.
      rewrite dom_union_L, !dom_insert_L, dom_empty_L.
      apply set_eq. intros k.
      rewrite !elem_of_union, !elem_of_singleton, elem_of_empty. tauto.
    + split; [rewrite (node_attributes_defaults _ _ _ _ _ _ Hnk); reflexivity|].
      intros k Hk. apply node_attributes_defaults. exact Hk.
Qed.

End MoreRendering.

(** * The further properties on the small diagram *)

Section OnCases.

Import Fixture Cases.

#[local] Existing Instance Recorder.
#[local] Existing Instance Paths.

Local Abbreviation graph_of p := (@computed_graph _ _ _ _ Recorder p).
Local Abbreviation paths_of p := (@path_generator _ _ _ _ Paths p).

(** The calls made for [framed]. *)
Example setter_calls_framed :
  setter_calls framed =
    [Call_nodePadding (num 4); Call_extent extent_of_framed;
     Call_size size_of_framed; Call_iterations (num 32)].
Proof. reflexivity. Qed.

(** On [framed], for its size. *)
Lemma supplied_option_is_forwarded_witness :
  supplied framed size_call /\ In size_call (setter_calls framed).
Proof.
  assert (Hs : supplied framed size_call) by (split; reflexivity).
  split; [exact Hs|].
  exact (supplied_option_is_forwarded framed size_call Hs).
Defined.

(** On [framed], which has both an extent and a size. *)
Lemma size_set_after_extent_witness :
  (extent framed = Some extent_of_framed /\ size framed = Some size_of_framed) /\
  exists before after : list (@SetterCall string (string * string)),
    setter_calls framed =
      before ++ Call_extent extent_of_framed :: Call_size size_of_framed :: after /\
    (forall c, In c before ->
       In (setter_of c) [OptNodeId; OptNodeWidth; OptNodePadding; OptNodeAlign]) /\
    (forall c, In c after ->
       In (setter_of c) [OptIterations; OptNodeSort; OptLinkSort]) /\
    configure framed =
      replay after (sankey_size size_of_framed
                      (sankey_extent extent_of_framed (replay before d3sankey))).
Proof.
  split; [split; reflexivity|].
  exact (size_set_after_extent (engine := Recorder) framed
           extent_of_framed size_of_framed eq_refl eq_refl).
Defined.

(** On [zeroed], whose only options are zeros. *)
Lemma no_option_leaves_engine_fresh_witness :
  (forall o, provided (omit_falsy zeroed) o = false) /\
  (setter_calls zeroed = [] /\
   configure zeroed = d3sankey /\
   graph_of zeroed = sankey_apply d3sankey (root zeroed)).
Proof.
  assert (Hnone : forall o, provided (omit_falsy zeroed) o = false)
    by (intros []; reflexivity).
  split; [exact Hnone|].
  exact (no_option_leaves_engine_fresh (engine := Recorder) zeroed Hnone).
Defined.

(** [overridden] and [overridden_styled] share the render function. *)
Lemma override_ignores_style_and_accessors_witness :
  (same_layout_input overridden overridden_styled /\
   children overridden = Some (fun g => length (nodes g)) /\
   children overridden_styled = Some (fun g => length (nodes g))) /\
  render overridden = render overridden_styled.
Proof.
  assert (Hsame : same_layout_input overridden overridden_styled)
    by (repeat split).
  split; [repeat split|].
  exact (override_ignores_style_and_accessors (engine := Recorder)
           (generator := Paths) overridden overridden_styled _
           Hsame eq_refl eq_refl).
Defined.

(** [aimed] is [styled] with point accessors. *)
Lemma accessors_only_reach_d_witness :
  (same_layout_input styled aimed /\
   children styled = None /\ children aimed = None /\
   nodeProps styled = nodeProps aimed /\ linkProps styled = linkProps aimed) /\
  (graph_of styled = graph_of aimed /\
   node_shapes (render styled) = node_shapes (render aimed) /\
   (forall i link, links (graph_of styled) !! i = Some link ->
      exists props1 props2,
        link_shapes (render styled) !! i = Some (RElement "path" i props1) /\
        link_shapes (render aimed) !! i = Some (RElement "path" i props2) /\
        (forall k, k <> "d" -> props1 !! k = props2 !! k))).
Proof.
  assert (Hsame : same_layout_input styled aimed) by (repeat split).
  split; [repeat split|].
  exact (accessors_only_reach_d (engine := Recorder) (generator := Paths)
           styled aimed Hsame eq_refl eq_refl eq_refl eq_refl).
Defined.

(** On [plain]: three paths and one rect, the second node having no [y0]. *)
Lemma default_rendering_shape_witness :
  children plain = None /\
  (render plain = RFragment [RGroup (link_shapes (render plain));
                             RGroup (node_shapes (render plain))] /\
   groups (render plain) = 2 /\
   (length (link_shapes (render plain)) = length (links (graph_of plain)) /\
    forall i link, links (graph_of plain) !! i = Some link ->
      exists props,
        link_shapes (render plain) !! i = Some (RElement "path" i props)) /\
   (length (node_shapes (render plain)) = length (nodes (graph_of plain)) /\
    forall i node, nodes (graph_of plain) !! i = Some node ->
      if is_placed node
      then exists props,
             node_shapes (render plain) !! i = Some (RElement "rect" i props)
      else node_shapes (render plain) !! i = Some RNull) /\
   map entry_tag (elements (render plain)) =
     replicate (length (links (graph_of plain))) "path" ++
     replicate (length (List.filter is_placed (nodes (graph_of plain)))) "rect" /\
   length (elements (render plain)) =
     length (links (graph_of plain)) +
     length (List.filter is_placed (nodes (graph_of plain))) /\
   (links (graph_of plain) = [] -> nodes (graph_of plain) = [] ->
      render plain = RFragment [RGroup []; RGroup []])).
Proof.
  split; [reflexivity|].
  exact (default_rendering_shape (engine := Recorder) (generator := Paths)
           plain eq_refl).
Defined.

Example tags_plain :
  map entry_tag (elements (render plain)) = ["path"; "path"; "path"; "rect"].
Proof. reflexivity. Qed.

Example elements_plain : length (elements (render plain)) = 4.
Proof. reflexivity. Qed.

(** On [styled], whose style props are of their declared types. *)
Lemma shape_key_is_index_witness :
  (children styled = None /\
   is_LinkProps (nullish (linkProps styled) ∅) /\
   is_NodeProps (nullish (nodeProps styled) ∅)) /\
  ((forall i link, links (graph_of styled) !! i = Some link ->
      exists shape,
        link_shapes (render styled) !! i = Some shape /\
        element_key shape = Some (IndexKey i)) /\
   (forall i node, nodes (graph_of styled) !! i = Some node ->
      is_placed node = true ->
      exists shape,
        node_shapes (render styled) !! i = Some shape /\
        element_key shape = Some (IndexKey i)) /\
   (forall shapes, shapes = link_shapes (render styled) \/
                   shapes = node_shapes (render styled) ->
    forall i j shape1 shape2 key,
      shapes !! i = Some shape1 -> shapes !! j = Some shape2 ->
      element_key shape1 = Some key -> element_key shape2 = Some key ->
      i = j)).
Proof.
  split; [split; [reflexivity|split;
            [exact styled_linkProps_typed | exact styled_nodeProps_typed]]|].
  exact (shape_key_is_index (engine := Recorder) (generator := Paths)
           styled eq_refl styled_linkProps_typed styled_nodeProps_typed).
Defined.

(** On [keyed], with the key 5 of its [linkProps]. *)
Lemma props_key_replaces_index_witness :
  children keyed = None /\
  ((nullish (linkProps keyed) ∅ !! "key" = Some (ANumber (num 5)) ->
    forall i link, links (graph_of keyed) !! i = Some link ->
      exists shape,
        link_shapes (render keyed) !! i = Some shape /\
        element_key shape = Some (PropsKey (ANumber (num 5)))) /\
   (nullish (nodeProps keyed) ∅ !! "key" = Some (ANumber (num 5)) ->
    forall i node, nodes (graph_of keyed) !! i = Some node ->
      is_placed node = true ->
      exists shape,
        node_shapes (render keyed) !! i = Some shape /\
        element_key shape = Some (PropsKey (ANumber (num 5))))).
Proof.
  split; [reflexivity|].
  exact (props_key_replaces_index (engine := Recorder) (generator := Paths)
           keyed (ANumber (num 5)) eq_refl).
Defined.

(** On [keyed] all three paths have the key 5. *)
Example keyed_paths :
  map element_key (link_shapes (render keyed)) =
    [Some (PropsKey (ANumber (num 5))); Some (PropsKey (ANumber (num 5)));
     Some (PropsKey (ANumber (num 5)))] /\
  map element_key (link_shapes (render plain)) =
    [Some (IndexKey 0); Some (IndexKey 1); Some (IndexKey 2)] /\
  map element_key (node_shapes (render plain)) = [Some (IndexKey 0); None].
Proof. repeat split. Qed.

(** On [plain], for the link of width 10. *)
Lemma stroke_width_values_witness :
  (children plain = None /\
   nullish (linkProps plain) ∅ !! "strokeWidth" = None /\
   links (graph_of plain) !! 0 = Some wide) /\
  exists props,
    link_shapes (render plain) !! 0 = Some (RElement "path" 0 props) /\
    (width wide = None -> props !! "strokeWidth" = Some (ANumber one)) /\
    (forall w, width wide = Some w -> SFltb one w = true ->
       props !! "strokeWidth" = Some (ANumber w)) /\
    (forall w, width wide = Some w -> isNaN w = false -> SFltb one w = false ->
       props !! "strokeWidth" = Some (ANumber one)) /\
    (width wide = Some S754_nan ->
       props !! "strokeWidth" = Some (ANumber S754_nan) /\
       stroke_width_ge_1 props = false).
Proof.
  split; [repeat split|].
  exact (stroke_width_values (engine := Recorder) (generator := Paths)
           plain 0 wide eq_refl eq_refl eq_refl).
Defined.

Example stroke_width_of_wide :
  exists props,
    link_shapes (render plain) !! 0 = Some (RElement "path" 0 props) /\
    props !! "strokeWidth" = Some (ANumber (num 10)).
Proof. eexists. split; reflexivity. Qed.

Lemma recoloured_linkProps_typed : is_LinkProps (nullish (linkProps recoloured) ∅).
Proof. unfold is_LinkProps. compute_done. Defined.

Lemma recoloured_nodeProps_typed : is_NodeProps (nullish (nodeProps recoloured) ∅).
Proof. unfold is_NodeProps. compute_done. Defined.

(** On [recoloured], which overrides the stroke only. *)
Lemma unsupplied_attributes_keep_defaults_witness :
  (children recoloured = None /\
   is_LinkProps (nullish (linkProps recoloured) ∅) /\
   is_NodeProps (nullish (nodeProps recoloured) ∅)) /\
  ((forall i link, links (graph_of recoloured) !! i = Some link ->
      exists props,
        link_shapes (render recoloured) !! i = Some (RElement "path" i props) /\
        dom props = path_default_keys ∪ dom (nullish (linkProps recoloured) ∅) /\
        props !! "key" = None /\
        (forall k, nullish (linkProps recoloured) ∅ !! k = None ->
           props !! k =
             ({[ "d" := AString
                   (nullish (path_apply (paths_of recoloured) link) "");
                 "fill" := AString "transparent";
                 "stroke" := AString "#000";
                 "strokeWidth" :=
                   ANumber (Math_max one (nullish (width link) zero));
                 "strokeOpacity" := ANumber half ]} : PropsObject) !! k)) /\
   (forall i node vx0 vx1 vy0 vy1,
      nodes (graph_of recoloured) !! i = Some node ->
      bounds node = Some (vx0, vx1, vy0, vy1) ->
      exists props,
        node_shapes (render recoloured) !! i = Some (RElement "rect" i props) /\
        dom props = rect_default_keys ∪ dom (nullish (nodeProps recoloured) ∅) /\
        props !! "key" = None /\
        (forall k, nullish (nodeProps recoloured) ∅ !! k = None ->
           props !! k =
             ({[ "fill" := AString "#000";
                 "width" := ANumber (number_sub vx1 vx0);
                 "height" := ANumber (number_sub vy1 vy0);
                 "x" := ANumber vx0;
                 "y" := ANumber vy0 ]} : PropsObject) !! k))).
Proof.
  split; [split; [reflexivity|split;
            [exact recoloured_linkProps_typed | exact recoloured_nodeProps_typed]]|].
  exact (unsupplied_attributes_keep_defaults (engine := Recorder)
           (generator := Paths) recoloured eq_refl
           recoloured_linkProps_typed recoloured_nodeProps_typed).
Defined.

Example recoloured_path :
  exists props,
    link_shapes (render recoloured) !! 0 = Some (RElement "path" 0 props) /\
    props !! "stroke" = Some (AString "red") /\
    props !! "fill" = Some (AString "transparent") /\
    props !! "strokeOpacity" = Some (ANumber half).
Proof. eexists. repeat split. Qed.

End OnCases.

(** * The path generator *)

Section PathAccessors.

Context {NodeDatum LinkDatum UserNode E P : Type}.
Context {engine : @SankeyLayout NodeDatum LinkDatum E}.
Context {generator : @SankeyLinkPath LinkDatum P}.

Local Abbreviation Props := (@SankeyProps NodeDatum LinkDatum UserNode).
Local Abbreviation Link := (@SankeyLink LinkDatum).

(** A supplied accessor always is set: a function is never falsy. *)
Lemma path_generator_accessors (p : Props) :
  path_generator p =
    match targetAccessor p with
    | Some target => path_target target
    | None => fun path => path
    end
      (match sourceAccessor p with
       | Some source => path_source source
       | None => fun path => path
       end sankeyLinkHorizontal).
Proof.
  unfold path_generator.
  destruct (sourceAccessor p), (targetAccessor p); reflexivity.
Qed.

(** X11: the [d] of every path comes from the generator that
    [sankeyLinkHorizontal()] returns after the supplied accessors were set on
    it, the source accessor first: with both accessors it is the path of
    [path.source(s).target(t)], with none that of the fresh generator
    ([linkProps] being of its declared type). *)
Theorem path_description_uses_accessors (p : Props) (i : nat) (link : Link) :
  children p = None ->
  is_LinkProps (nullish (linkProps p) ∅) ->
  links (computed_graph p) !! i = Some link ->
  exists props,
    link_shapes (Sankey p) !! i = Some (RElement "path" i props) /\
    (forall s t, sourceAccessor p = Some s -> targetAccessor p = Some t ->
       props !! "d" =
         Some (AString (nullish
           (path_apply (path_target t (path_source s sankeyLinkHorizontal)) link) ""))) /\
    (forall s, sourceAccessor p = Some s -> targetAccessor p = None ->
       props !! "d" =
         Some (AString (nullish
           (path_apply (path_source s sankeyLinkHorizontal) link) ""))) /\
    (forall t, sourceAccessor p = None -> targetAccessor p = Some t ->
       props !! "d" =
         Some (AString (nullish
           (path_apply (path_target t sankeyLinkHorizontal) link) ""))) /\
    (sourceAccessor p = None -> targetAccessor p = None ->
       props !! "d" =
         Some (AString (nullish (path_apply sankeyLinkHorizontal link) ""))).
Proof.
  intros Hc Hlp Hl. eexists.
  split; [apply (link_shape_lookup p i link Hc Hl)|].
  rewrite (link_attributes_defaults _ _ _ _ (LinkProps_no_d _ Hlp)).
  rewrite path_generator_accessors.
  split; [|split; [|split]].
  - intros s t -> ->. reflexivity.
  - intros s -> ->. reflexivity.
  - intros t -> ->. reflexivity.
  - intros -> ->. reflexivity.
Qed.

End PathAccessors.

Section OnAimed.

Import Fixture Cases.

#[local] Existing Instance Recorder.
#[local] Existing Instance Paths.

Lemma aimed_linkProps_typed : is_LinkProps (nullish (linkProps aimed) ∅).
Proof. unfold is_LinkProps. compute_done. Defined.

(** On [aimed], for its first link. *)
Lemma path_description_uses_accessors_witness :
  (children aimed = None /\
   is_LinkProps (nullish (linkProps aimed) ∅) /\
   links (@computed_graph _ _ _ _ Recorder aimed) !! 0 = Some wide) /\
  exists props,
    link_shapes (render aimed) !! 0 = Some (RElement "path" 0 props) /\
    (forall s t, sourceAccessor aimed = Some s -> targetAccessor aimed = Some t ->
       props !! "d" =
         Some (AString (nullish
           (path_apply (path_target t (path_source s sankeyLinkHorizontal)) wide) ""))) /\
    (forall s, sourceAccessor aimed = Some s -> targetAccessor aimed = None ->
       props !! "d" =
         Some (AString (nullish
           (path_apply (path_source s sankeyLinkHorizontal) wide) ""))) /\
    (forall t, sourceAccessor aimed = None -> targetAccessor aimed = Some t ->
       props !! "d" =
         Some (AString (nullish
           (path_apply (path_target t sankeyLinkHorizontal) wide) ""))) /\
    (sourceAccessor aimed = None -> targetAccessor aimed = None ->
       props !! "d" =
         Some (AString (nullish (path_apply sankeyLinkHorizontal wide) ""))).
Proof.
  split; [repeat split; exact aimed_linkProps_typed|].
  exact (path_description_uses_accessors (engine := Recorder)
           (generator := Paths) aimed 0 wide eq_refl aimed_linkProps_typed eq_refl).
Defined.

End OnAimed.
